(** * clientcomptage: a shallow embedding of [clientcomptage.c]

    The program parses its command line ([get_opts]), opens one PostgreSQL
    connection with fixed parameters, runs one statement chosen by the
    action, closes the connection and returns.

    Modelling conventions.
    - A C string is a [string] (a sequence of bytes); a [char *] that may be
      NULL, or that may not point to a string at all, is an [option string].
    - Everything the process does to the outside (standard output, the log,
      libpq calls) is recorded, in order, in a list of [event]s; a
      computation is a pair of that list and of the way it ended
      ([Ret]urned, [Exit]ed the process, ...).
    - The globals [opts] and [conn] are passed explicitly.
    - What the program cannot decide is read from a [world]: the database
      answers, the value of POSIXLY_CORRECT, the PG_VERSION the program was
      compiled against.
    - The block returned by [pg_malloc] is not zeroed: its content is an
      input of [main] (the [garbage] argument).
    - Memory allocation ([pg_malloc], [strdup], [pstrdup]) and writes to the
      standard streams are assumed to succeed. *)

From Stdlib Require Import ZArith List String Ascii Bool Lia Arith.
Import ListNotations.

Local Open Scope string_scope.
Local Open Scope list_scope.

(** ** Characters and strings *)

Module CStr.

(** The line feed, the double quote and the backslash. *)
Definition nl : string := String (ascii_of_nat 10) EmptyString.
Definition dq : string := String (ascii_of_nat 34) EmptyString.
Definition backslash : string := String (ascii_of_nat 92) EmptyString.

(** [strcmp(a, b) == 0] *)
Definition streq (a b : string) : bool := String.eqb a b.

(** [strchr(s, c)] for a character [c] other than the terminator: the
    suffix of [s] that starts at the first [c], or NULL. *)
Fixpoint strchr (s : string) (c : ascii) : option string :=
  match s with
  | EmptyString => None
  | String x s' => if Ascii.eqb x c then Some s else strchr s' c
  end.

(** [strrchr]-like search used by [get_progname]: what follows the last
    directory separator. *)
Fixpoint after_last_slash (s : string) : string :=
  match s with
  | EmptyString => EmptyString
  | String c s' =>
      match strchr s' "/" with
      | Some _ => after_last_slash s'
      | None => if Ascii.eqb c "/" then s' else s
      end
  end.

(** [snprintf(buf, size, ...)] keeps at most [size - 1] bytes of the
    formatted text. *)
Definition snprintf (size : nat) (formatted : string) : string :=
  substring 0 (size - 1) formatted.

End CStr.
Import CStr.

(** ** Defines, enums and structs *)

Definition CLIENTCOMPTAGE_VERSION : string := "0.0.1".
Definition CLIENTCOMPTAGE_DEFAULT_LINES : nat := 20.
Definition CLIENTCOMPTAGE_DEFAULT_STRING_SIZE : nat := 2048.

Definition EXIT_FAILURE : Z := 1%Z.

Inductive actions_t : Type := NONE | AJOUT | JOURS | MOIS | SEMAINES.

(** The integer value of each enumerator ([NONE = 0], then counting up). *)
Definition enum_value (a : actions_t) : Z :=
  match a with
  | NONE => 0
  | AJOUT => 1
  | JOURS => 2
  | MOIS => 3
  | SEMAINES => 4
  end%Z.

(** The options structure.  [action] is kept as the integer stored in the
    field, which is whatever the allocator left there until an option
    assigns it. *)
Record options : Type := mk_options {
  script  : option string;
  verbose : bool;
  action  : Z;
  heures  : option string;
  dsn     : option string;
  major   : Z;
  minor   : Z
}.

Definition set_script (v : option string) (o : options) : options :=
  mk_options v (verbose o) (action o) (heures o) (dsn o) (major o) (minor o).
Definition set_verbose (v : bool) (o : options) : options :=
  mk_options (script o) v (action o) (heures o) (dsn o) (major o) (minor o).
Definition set_action (v : actions_t) (o : options) : options :=
  mk_options (script o) (verbose o) (enum_value v) (heures o) (dsn o)
             (major o) (minor o).
Definition set_heures (v : string) (o : options) : options :=
  mk_options (script o) (verbose o) (action o) (Some v) (dsn o)
             (major o) (minor o).

(** ** libpq and fe_utils, as far as the program uses them *)

Definition PGconn : Type := nat.

Record PGresult : Type := mk_PGresult {
  resultStatus : Z;                 (* PQresultStatus *)
  fields       : list string;
  tuples       : list (list string)
}.

Definition PGRES_EMPTY_QUERY : Z := 0.
Definition PGRES_COMMAND_OK : Z := 1.
Definition PGRES_TUPLES_OK : Z := 2.
Definition PGRES_FATAL_ERROR : Z := 7.

Inductive trivalue : Type := TRI_DEFAULT | TRI_NO | TRI_YES.

Record ConnParams : Type := mk_ConnParams {
  dbname          : string;
  pghost          : string;
  pgport          : string;
  pguser          : string;
  prompt_password : trivalue;
  override_dbname : option string
}.

Inductive printFormat : Type := PRINT_ALIGNED.
Inductive unicode_linestyle : Type :=
  UNICODE_LINESTYLE_SINGLE | UNICODE_LINESTYLE_DOUBLE.

(** The fields of [printQueryOpt] that [fetch_table] assigns. *)
Record printQueryOpt : Type := mk_printQueryOpt {
  title                    : string;
  translate_header         : bool;
  format                   : printFormat;
  expanded                 : Z;
  border                   : Z;
  pager                    : Z;
  tuples_only              : bool;
  start_table              : bool;
  stop_table               : bool;
  default_footer           : bool;
  numericLocale            : bool;
  env_columns              : Z;
  unicode_border_linestyle : unicode_linestyle;
  unicode_column_linestyle : unicode_linestyle;
  unicode_header_linestyle : unicode_linestyle
}.

(** What the program does not decide. *)
Record world : Type := mk_world {
  POSIXLY_CORRECT : bool;                       (* getopt stops at the first operand *)
  PG_VERSION      : string;
  connectDatabase_result : option PGconn;       (* None: the connection fails *)
  PQexec_result   : PGconn -> string -> option PGresult;   (* None: NULL *)
  PQerrorMessage  : string
}.

(** ** Events and computations *)

Inductive event : Type :=
| pqsignal_SIGINT                       (* pqsignal(SIGINT, quit_properly) *)
| stdout (text : string)                (* printf, puts *)
| pg_log_error (msg : string)
| pg_log_info (msg : string)
| getopt_error                          (* the message of getopt itself *)
| connectDatabase (cparams : ConnParams) (progname : string)
| PQexec (c : PGconn) (query : string)
| printQuery (opt : printQueryOpt) (res : PGresult)
| PQclear (res : option PGresult)
| PQfinish (c : option PGconn)
| pg_free_opts.

Inductive outcome (A : Type) : Type :=
| Ret (a : A)            (* the function returns *)
| Exit (status : Z)      (* exit(status) *)
| Undefined              (* a string conversion given a pointer that is not a string *)
| OutOfFuel.             (* the model's loop bound was too small *)
Arguments Ret {A} a.
Arguments Exit {A} status.
Arguments Undefined {A}.
Arguments OutOfFuel {A}.

Definition proc (A : Type) : Type := (list event * outcome A)%type.

Definition ret {A} (a : A) : proc A := ([], Ret a).
Definition emit (e : event) : proc unit := ([e], Ret tt).
Definition exit {A} (status : Z) : proc A := ([], Exit status).
Definition undefined {A} : proc A := ([], Undefined).

Definition bind {A B} (m : proc A) (k : A -> proc B) : proc B :=
  match m with
  | (t, Ret a) => let (t', r) := k a in (t ++ t', r)
  | (t, Exit s) => (t, Exit s)
  | (t, Undefined) => (t, Undefined)
  | (t, OutOfFuel) => (t, OutOfFuel)
  end.

Declare Scope proc_scope.
Delimit Scope proc_scope with proc.
Notation "x <- m ;; k" := (bind m (fun x => k))
  (at level 100, m at next level, right associativity) : proc_scope.
Notation "m ;; k" := (bind m (fun _ => k))
  (at level 100, right associativity) : proc_scope.
Local Open Scope proc_scope.

Definition trace {A} (p : proc A) : list event := fst p.
Definition result {A} (p : proc A) : outcome A := snd p.

(** ** getopt(3)

    [getopt] belongs to the C library.  It is modelled as POSIX specifies it
    for an option string made of letters, each possibly followed by one
    colon, together with the GNU habit of skipping operands unless
    POSIXLY_CORRECT is set.  The scanner state is [optind] and the position
    inside the element being scanned: [rest] holds the elements of [argv]
    that come after the one being scanned, [nextchar] what is left of that
    one. *)

Module Getopt.

Record state : Type := mk_state {
  rest     : list string;
  nextchar : string
}.

(** What one call hands back: the option character and [optarg]. *)
Definition answer : Type := (ascii * option string)%type.

(** [argv[optind][0] != '-' || argv[optind][1] == '\0'] *)
Definition NONOPTION_P (a : string) : bool :=
  match a with
  | String c (String _ _) => negb (Ascii.eqb c "-")
  | _ => true
  end.

Fixpoint skip_nonoptions (l : list string) : list string :=
  match l with
  | a :: l' => if NONOPTION_P a then skip_nonoptions l' else l
  | [] => []
  end.

(** The scanner positioned before [argv[1]]. *)
Definition init (argv : list string) : state :=
  mk_state (tl argv) EmptyString.

(** Scan one option character out of [nc], the unread part of the current
    element; [tl] are the elements after it. *)
Definition short_option (optstring : string) (nc : string)
           (tl : list string) : option answer * state :=
  match nc with
  | EmptyString => (None, mk_state tl EmptyString)
  | String c nc' =>
      match strchr optstring c with
      | None => (Some ("?"%char, None), mk_state tl nc')
      | Some temp =>
          if Ascii.eqb c ":" then (Some ("?"%char, None), mk_state tl nc')
          else
            match temp with
            | String _ (String ":" _) =>
                (* the option takes an argument *)
                match nc' with
                | String _ _ => (Some (c, Some nc'), mk_state tl EmptyString)
                | EmptyString =>
                    match tl with
                    | [] => (Some ("?"%char, None), mk_state [] EmptyString)
                    | x :: tl' => (Some (c, Some x), mk_state tl' EmptyString)
                    end
                end
            | _ => (Some (c, None), mk_state tl nc')
            end
      end
  end.

(** One call of [getopt(argc, argv, optstring)]; [None] stands for -1. *)
Definition getopt (posixly_correct : bool) (optstring : string)
           (st : state) : option answer * state :=
  match nextchar st with
  | String _ _ => short_option optstring (nextchar st) (rest st)
  | EmptyString =>
      let args := if posixly_correct then rest st
                  else skip_nonoptions (rest st) in
      match args with
      | [] => (None, mk_state [] EmptyString)
      | a :: tl =>
          if streq a "--" then (None, mk_state tl EmptyString)
          else if NONOPTION_P a then (None, mk_state args EmptyString)
          else
            match a with
            | String _ nc => short_option optstring nc tl
            | EmptyString => (None, mk_state args EmptyString)
            end
      end
  end.

(** [getopt] writes a message of its own on standard error whenever it
    answers [?], the program leaving [opterr] as it is. *)
Definition complains (r : answer) : bool := Ascii.eqb (fst r) "?".

(** A bound on the number of calls that can still return an option. *)
Definition size (st : state) : nat :=
  String.length (nextchar st)
  + fold_right (fun a n => S (String.length a) + n) 0 (rest st).

(** The successive answers of [getopt] until it returns -1. *)
Fixpoint answers (fuel : nat) (posixly_correct : bool) (optstring : string)
         (st : state) : list answer :=
  match fuel with
  | O => []
  | S fuel' =>
      match getopt posixly_correct optstring st with
      | (None, _) => []
      | (Some r, st') => r :: answers fuel' posixly_correct optstring st'
      end
  end.

End Getopt.

(** ** The program *)

(** [get_progname] of libpgport: the file name without its directories. *)
Definition get_progname (argv0 : string) : string := after_last_slash argv0.

(** The text printed by [help]. *)
Definition help_text (progname : string) : string :=
  progname ++ " does some stuff :)" ++ nl ++ nl
  ++ "Usage:" ++ nl
  ++ "  " ++ progname ++ " [OPTIONS]" ++ nl
  ++ nl ++ "General options:" ++ nl
  ++ "  -a            ajout d'heures réalisées" ++ nl
  ++ "  -j|--jour     décompte par jour" ++ nl
  ++ "  -m|--mois     décompte par mois" ++ nl
  ++ "  -s|--semaines décompte par semaine" ++ nl
  ++ "  -v            verbose" ++ nl
  ++ "  -?|--help     show this help, then exit" ++ nl
  ++ "  -V|--version  output version information, then exit" ++ nl
  ++ nl
  ++ "Report bugs to <guillaume@lelarge.info>." ++ nl.

Definition help (progname : string) : proc unit :=
  emit (stdout (help_text progname)).

(** The line written by [puts] for [--version]. *)
Definition version_text (w : world) : string :=
  "pgreport " ++ CLIENTCOMPTAGE_VERSION ++ " (compiled with PostgreSQL "
  ++ PG_VERSION w ++ ")" ++ nl.

(** The message of the [default] case of the option switch. *)
Definition usage_hint (progname : string) : string :=
  "Try " ++ dq ++ progname ++ " --help" ++ dq ++ " for more information." ++ nl.

(** [pg_strdup] *)
Definition pg_strdup (i : option string) : proc string :=
  match i with
  | None =>
      emit (pg_log_error ("cannot duplicate null pointer (internal error)" ++ nl)) ;;
      exit EXIT_FAILURE
  | Some s => ret s
  end.

(** The body of the [switch] in [get_opts], for the answer [c] of [getopt]
    and the [optarg] it left. *)
Definition get_opts_switch (progname : string) (c : ascii)
           (optarg : option string) (opts : options) : proc options :=
  if Ascii.eqb c "a" then
    let opts := set_action AJOUT opts in
    h <- pg_strdup optarg ;;
    ret (set_heures h opts)
  else if Ascii.eqb c "j" then ret (set_action JOURS opts)
  else if Ascii.eqb c "m" then ret (set_action MOIS opts)
  else if Ascii.eqb c "s" then ret (set_action SEMAINES opts)
  else
    emit (pg_log_error (usage_hint progname)) ;;
    exit EXIT_FAILURE.

(** [while ((c = getopt(argc, argv, "a:jmsv")) != -1) switch (c) ...] *)
Fixpoint get_opts_loop (fuel : nat) (w : world) (progname : string)
         (st : Getopt.state) (opts : options) : proc options :=
  match fuel with
  | O => ([], OutOfFuel)
  | S fuel' =>
      match Getopt.getopt (POSIXLY_CORRECT w) "a:jmsv" st with
      | (None, _) => ret opts
      | (Some (c, optarg), st') =>
          (if Getopt.complains (c, optarg) then emit getopt_error
           else ret tt) ;;
          opts' <- get_opts_switch progname c optarg opts ;;
          get_opts_loop fuel' w progname st' opts'
      end
  end.

(** [get_opts]; [opts] is the structure as [main] allocated it. *)
Definition get_opts (w : world) (argv : list string) (opts : options)
  : proc options :=
  match argv with
  | [] => undefined                       (* argv[0] is NULL *)
  | argv0 :: args =>
      let progname := get_progname argv0 in
      (* set the defaults *)
      let opts := set_script None opts in
      let opts := set_verbose false opts in
      (* we should deal quickly with help and version *)
      (match args with
       | argv1 :: _ =>
           (if streq argv1 "--help" || streq argv1 "-?" then
              help progname ;; exit 0%Z
            else ret tt) ;;
           (if streq argv1 "--version" || streq argv1 "-V" then
              emit (stdout (version_text w)) ;; exit 0%Z
            else ret tt)
       | [] => ret tt
       end) ;;
      (* get options *)
      get_opts_loop (S (Getopt.size (Getopt.init argv))) w progname
                    (Getopt.init argv) opts
  end.

(** [execute] *)
Definition execute (w : world) (opts : options) (conn : PGconn)
           (query : string) : proc unit :=
  match script opts with
  | Some _ => emit (stdout (query ++ ";" ++ nl))
  | None =>
      (* make the call *)
      emit (PQexec conn query) ;;
      let results := PQexec_result w conn query in
      (* check and deal with errors *)
      match results with
      | None =>
          emit (pg_log_error ("query failed: " ++ PQerrorMessage w)) ;;
          emit (pg_log_info ("query was: " ++ query)) ;;
          emit (PQclear results) ;;
          emit (PQfinish (Some conn)) ;;
          exit EXIT_FAILURE
      | Some _ =>
          (* cleanup *)
          emit (PQclear results)
      end
  end.

(** The print options built by [fetch_table]. *)
Definition myopt (label : string) : printQueryOpt :=
  {| title := label;
     translate_header := false;
     format := PRINT_ALIGNED;
     expanded := 0;
     border := 2;
     pager := 0;
     tuples_only := false;
     start_table := true;
     stop_table := true;
     default_footer := false;
     numericLocale := false;
     env_columns := 0;
     unicode_border_linestyle := UNICODE_LINESTYLE_SINGLE;
     unicode_column_linestyle := UNICODE_LINESTYLE_SINGLE;
     unicode_header_linestyle := UNICODE_LINESTYLE_SINGLE |}.

(** [!res || PQresultStatus(res) > 2] *)
Definition fetch_failed (res : option PGresult) : bool :=
  match res with
  | None => true
  | Some r => (2 <? resultStatus r)%Z
  end.

(** [fetch_table] *)
Definition fetch_table (w : world) (opts : options) (conn : PGconn)
           (label query : string) : proc unit :=
  match script opts with
  | Some _ =>
      emit (stdout (backslash ++ "echo " ++ label ++ nl)) ;;
      emit (stdout (query ++ ";" ++ nl))
  | None =>
      (* execute it *)
      emit (PQexec conn query) ;;
      let res := PQexec_result w conn query in
      (* check and deal with errors *)
      if fetch_failed res then
        emit (pg_log_error ("query failed: " ++ PQerrorMessage w)) ;;
        emit (pg_log_info ("query was: " ++ query)) ;;
        emit (PQclear res) ;;
        emit (PQfinish (Some conn)) ;;
        exit EXIT_FAILURE
      else
        match res with
        | Some r =>
            (* print results *)
            emit (printQuery (myopt label) r) ;;
            (* cleanup *)
            emit (PQclear res)
        | None => ret tt
        end
  end.

(** [quit_properly], the SIGINT handler; [conn] is the global as it is when
    the signal arrives. *)
Definition quit_properly (conn : option PGconn) : proc unit :=
  emit (PQfinish conn) ;;
  exit EXIT_FAILURE.

(** The connection parameters set by [main]. *)
Definition cparams : ConnParams :=
  {| pghost := "localhost";
     pgport := "5414";
     dbname := "dalibo";
     pguser := "postgres";
     prompt_password := TRI_DEFAULT;
     override_dbname := None |}.

(** [connectDatabase] of fe_utils called with [fail_ok = false]: it returns
    the connection, or reports the failure and exits. *)
Definition connect (w : world) (progname : string) : proc PGconn :=
  emit (connectDatabase cparams progname) ;;
  match connectDatabase_result w with
  | Some c => ret c
  | None => emit (pg_log_error (PQerrorMessage w)) ;; exit 1%Z
  end.

(** The text formatted into [sql] for the insertion. *)
Definition insert_sql (heures : string) : string :=
  snprintf CLIENTCOMPTAGE_DEFAULT_STRING_SIZE
           ("INSERT INTO public.comptage (deb,fin) VALUES (" ++ heures ++ ")").

(** [main] from the connection on: connect, [switch (opts->action)], close. *)
Definition run_action (w : world) (progname : string) (opts : options)
  : proc Z :=
  (* Connect to the database *)
  conn <- connect w progname ;;
  (if (action opts =? enum_value AJOUT)%Z then
     match heures opts with
     | Some h => execute w opts conn (insert_sql h)
     | None => undefined
     end
   else if (action opts =? enum_value JOURS)%Z then
     fetch_table w opts conn "Jours" "SELECT * FROM public.jours_v"
   else if (action opts =? enum_value MOIS)%Z then
     fetch_table w opts conn "Mois" "SELECT * FROM public.mois"
   else if (action opts =? enum_value SEMAINES)%Z then
     fetch_table w opts conn "Semaines" "SELECT * FROM public.semaines"
   else
     emit (pg_log_error "No action defined")) ;;
  emit (PQfinish (Some conn)) ;;
  emit pg_free_opts ;;
  ret 0%Z.

(** [main]; [garbage] is the content of the block that [pg_malloc] returns
    for the options. *)
Definition main (w : world) (garbage : options) (argv : list string)
  : proc Z :=
  (* If the user stops the program, quit nicely. *)
  emit pqsignal_SIGINT ;;
  match argv with
  | [] => undefined
  | argv0 :: _ =>
      (* Get the program name *)
      let progname := get_progname argv0 in
      (* Parse the options *)
      opts <- get_opts w argv garbage ;;
      run_action w progname opts
  end.

(** The exit status of the process: what [exit] was given, or what [main]
    returned. *)
Definition exit_status (p : proc Z) : option Z :=
  match result p with
  | Ret s => Some s
  | Exit s => Some s
  | _ => None
  end.

(** ** Notions used to state the properties *)

(** The body of the loop of [get_opts] run over a list of [getopt]
    answers. *)
Fixpoint run_switch (progname : string) (l : list Getopt.answer)
         (opts : options) : proc options :=
  match l with
  | [] => ret opts
  | (c, optarg) :: l' =>
      (if Getopt.complains (c, optarg) then emit getopt_error
       else ret tt) ;;
      opts' <- get_opts_switch progname c optarg opts ;;
      run_switch progname l' opts'
  end.

(** The answers [getopt] gives for [argv] when it is called until -1. *)
Definition scanned (w : world) (argv : list string) : list Getopt.answer :=
  Getopt.answers (S (Getopt.size (Getopt.init argv))) (POSIXLY_CORRECT w)
                 "a:jmsv" (Getopt.init argv).

(** [argv[1]] is one of the four spellings of help and version. *)
Definition info_first (argv : list string) : bool :=
  match argv with
  | _ :: argv1 :: _ =>
      streq argv1 "--help" || streq argv1 "-?"
      || streq argv1 "--version" || streq argv1 "-V"
  | _ => false
  end.

(** One of them occurs somewhere after [argv[0]]. *)
Definition info_anywhere (argv : list string) : bool :=
  existsb (fun a => streq a "--help" || streq a "-?"
                    || streq a "--version" || streq a "-V") (tl argv).

(** The informational texts. *)
Definition info_text (w : world) (argv : list string) : string :=
  match argv with
  | argv0 :: argv1 :: _ =>
      if streq argv1 "--help" || streq argv1 "-?"
      then help_text (get_progname argv0)
      else version_text w
  | _ => EmptyString
  end.

(** The answer is one of the four action options. *)
Definition action_answer (r : Getopt.answer) : bool :=
  let c := fst r in
  Ascii.eqb c "a" || Ascii.eqb c "j" || Ascii.eqb c "m" || Ascii.eqb c "s".

(** What [getopt] itself writes about the first answer that is not an
    action option: its message when that answer is [?], nothing when it
    is [v]. *)
Fixpoint complaint (l : list Getopt.answer) : list event :=
  match l with
  | [] => []
  | r :: l' =>
      if action_answer r then complaint l'
      else if Getopt.complains r then [getopt_error] else []
  end.

Definition is_connectDatabase (e : event) : bool :=
  match e with connectDatabase _ _ => true | _ => false end.

Definition is_PQexec (e : event) : bool :=
  match e with PQexec _ _ => true | _ => false end.

Definition is_pqsignal (e : event) : bool :=
  match e with pqsignal_SIGINT => true | _ => false end.

Definition is_PQfinish_of (c : PGconn) (e : event) : bool :=
  match e with PQfinish (Some c') => Nat.eqb c c' | _ => false end.

Definition is_log (e : event) : bool :=
  match e with pg_log_error _ | pg_log_info _ => true | _ => false end.

(** What was written to standard output, in order. *)
Fixpoint stdout_of (t : list event) : list string :=
  match t with
  | stdout s :: t' => s :: stdout_of t'
  | _ :: t' => stdout_of t'
  | [] => []
  end.

(** The label and the query that [main] passes to [fetch_table] for a
    report action. *)
Definition report_of (a : actions_t) : option (string * string) :=
  match a with
  | JOURS => Some ("Jours", "SELECT * FROM public.jours_v")
  | MOIS => Some ("Mois", "SELECT * FROM public.mois")
  | SEMAINES => Some ("Semaines", "SELECT * FROM public.semaines")
  | _ => None
  end.

(** The statement that the dispatch of [main] hands to [execute] or to
    [fetch_table] for these options, if any. *)
Definition statement_of (opts : options) : option string :=
  if (action opts =? enum_value AJOUT)%Z then option_map insert_sql (heures opts)
  else if (action opts =? enum_value JOURS)%Z then option_map snd (report_of JOURS)
  else if (action opts =? enum_value MOIS)%Z then option_map snd (report_of MOIS)
  else if (action opts =? enum_value SEMAINES)%Z then option_map snd (report_of SEMAINES)
  else None.

(** *** Delivery of SIGINT

    The signal may arrive between any two events.  [sigint w k p] is the run
    [p] with the signal delivered once [k] events have happened: the
    handler installed by [pqsignal] runs [quit_properly] on the global
    [conn], which holds the connection as soon as [connectDatabase] has
    returned one.  There is no such run when the process has already ended,
    or when the handler is not installed yet. *)

Definition conn_after (w : world) (t : list event) : option PGconn :=
  if existsb is_connectDatabase t then connectDatabase_result w else None.

Definition sigint (w : world) (k : nat) (p : proc Z) : option (proc Z) :=
  let before := firstn k (trace p) in
  if (k <=? List.length (trace p))%nat && existsb is_pqsignal before then
    Some (bind (A:=unit) (before, Ret tt)
               (fun _ => bind (quit_properly (conn_after w before))
                              (fun _ => ret 0%Z)))
  else None.

(** How many times [PQfinish] was called on the connection [c]. *)
Definition PQfinish_count (c : PGconn) (t : list event) : nat :=
  List.length (filter (is_PQfinish_of c) t).


(** *** Notions about the scan *)

(** The size of what is left of [argv]. *)
Definition args_size (l : list string) : nat :=
  fold_right (fun a n => S (String.length a) + n) 0 l.

(** With the option string of the program, [getopt] leaves an [optarg]
    exactly when it answers [a]. *)
Definition well_formed (r : Getopt.answer) : Prop :=
  (fst r = "a"%char /\ exists x, snd r = Some x)
  \/ (fst r <> "a"%char /\ snd r = None).

(** *** The properties as the specification words them *)

(** Help and version: wherever the flag stands,
    the text is printed, the status is 0 and no connection is attempted. *)
Definition info_anywhere_claim : Prop :=
  forall (w : world) (g : options) (argv : list string),
    info_anywhere argv = true ->
    stdout_of (trace (main w g argv)) = [info_text w argv]
    /\ exit_status (main w g argv) = Some 0%Z
    /\ existsb is_connectDatabase (trace (main w g argv)) = false.

(** The spellings that the specification lists as recognized. *)
Definition recognized_flags : list string :=
  ["-a"; "-j"; "-m"; "-s"; "-v"; "--help"; "-?"; "--version"; "-V";
   "--jour"; "--mois"; "--semaines"].

(** An argument that looks like a flag and is not one of them. *)
Definition unrecognized_flag (a : string) : bool :=
  negb (Getopt.NONOPTION_P a) && negb (streq a "--")
  && negb (existsb (streq a) recognized_flags).

(** The property as the specification words it. *)
Definition unrecognized_flag_claim : Prop :=
  forall (w : world) (g : options) (argv0 : string) (args : list string),
    existsb unrecognized_flag args = true ->
    In (pg_log_error (usage_hint (get_progname argv0)))
       (trace (main w g (argv0 :: args)))
    /\ (exists s, exit_status (main w g (argv0 :: args)) = Some s /\ s <> 0%Z)
    /\ existsb is_connectDatabase (trace (main w g (argv0 :: args))) = false.

(** ** Sample inputs *)

Module Sample.

Definition tuples_ok : PGresult :=
  mk_PGresult PGRES_TUPLES_OK ["jour"; "duree"] [["2022-01-03"; "07:30"]].

Definition fatal_error : PGresult := mk_PGresult PGRES_FATAL_ERROR [] [].

(** A server that accepts the connection and answers every query. *)
Definition up : world :=
  {| POSIXLY_CORRECT := false;
     PG_VERSION := "14.2";
     connectDatabase_result := Some 1;
     PQexec_result := fun _ _ => Some tuples_ok;
     PQerrorMessage := EmptyString |}.

(** A server that answers every statement with an error result. *)
Definition rejecting : world :=
  {| POSIXLY_CORRECT := false;
     PG_VERSION := "14.2";
     connectDatabase_result := Some 1;
     PQexec_result := fun _ _ => Some fatal_error;
     PQerrorMessage := "ERROR:  syntax error" |}.

(** A zeroed block, and one with something left in it. *)
Definition zeroed : options := mk_options None false 0 None None 0 0.
Definition dirty : options :=
  mk_options (Some "x") true (enum_value JOURS) None None 0 0.

End Sample.


(** ** The rest of the program *)

(** [backend_minimum_version]: compare given major and minor numbers to the
    ones kept in the options. *)
Definition backend_minimum_version (opts : options) (maj min : Z) : bool :=
  (major opts >? maj)%Z
  || ((major opts =? maj)%Z && (minor opts >=? min)%Z).

(** [pg_malloc], the wrapper around [malloc] that the file carries for
    builds without fe_memutils; [malloc] answers a request with a block or
    with NULL ([None]). *)
Definition pg_malloc {block : Type} (malloc : nat -> option block)
           (size : nat) : proc block :=
  (* Avoid unportable behavior of malloc(0) *)
  let size := if (size =? 0)%nat then 1 else size in
  let tmp := malloc size in
  match tmp with
  | None =>
      emit (pg_log_error ("out of memory (pg_malloc)" ++ nl)) ;;
      exit EXIT_FAILURE
  | Some b => ret b
  end.

(** *** Notions used to state further properties *)

(** The value that the switch of [get_opts] stores in [action] for an
    option character. *)
Definition action_of_option (c : ascii) : Z :=
  if Ascii.eqb c "a" then enum_value AJOUT
  else if Ascii.eqb c "j" then enum_value JOURS
  else if Ascii.eqb c "m" then enum_value MOIS
  else if Ascii.eqb c "s" then enum_value SEMAINES
  else enum_value NONE.

(** How many events of a kind a trace holds. *)
Definition occurrences (kind : event -> bool) (t : list event) : nat :=
  List.length (filter kind t).

Definition is_PQclear (e : event) : bool :=
  match e with PQclear _ => true | _ => false end.

Definition is_PQfinish (e : event) : bool :=
  match e with PQfinish _ => true | _ => false end.

(** The fixed part of the insertion that precedes the payload. *)
Definition insert_prefix : string :=
  "INSERT INTO public.comptage (deb,fin) VALUES (".

(** The order on versions: [(maj, min)] is at most [(maj', min')]. *)
Definition version_le (maj min maj' min' : Z) : Prop :=
  (maj < maj')%Z \/ (maj = maj' /\ (min <= min')%Z).

(** The three report options, with what [main] passes to [fetch_table]. *)
Definition report_option (flag : string) : option (string * string) :=
  if streq flag "-j" then report_of JOURS
  else if streq flag "-m" then report_of MOIS
  else if streq flag "-s" then report_of SEMAINES
  else None.

(** ** Facts about the computation monad *)

Section ProcFacts.

Context {A B : Type}.

Lemma bind_ret (a : A) (k : A -> proc B) : bind (ret a) k = k a.
Proof. unfold bind, ret. destruct (k a); reflexivity. Qed.

Lemma bind_exit (s : Z) (k : A -> proc B) : bind (exit s) k = exit s.
Proof. reflexivity. Qed.

Lemma bind_returns (m : proc A) (k : A -> proc B) (t : list event) (b : B) :
  bind m k = (t, Ret b) ->
  exists t1 a t2, m = (t1, Ret a) /\ k a = (t2, Ret b) /\ t = t1 ++ t2.
Proof.
  destruct m as [t1 [a | s | | ]]; simpl; try discriminate.
  destruct (k a) as [t2 r] eqn:Hk. intros H. inversion H; subst.
  exists t1, a, t2. auto.
Qed.

End ProcFacts.

(** ** Facts about getopt *)

Module GetoptFacts.
Import Getopt.

Lemma size_eq (st : state) :
  size st = String.length (nextchar st) + args_size (rest st).
Proof. reflexivity. Qed.

Lemma skip_nonoptions_size (l : list string) :
  args_size (skip_nonoptions l) <= args_size l.
Proof.
  induction l as [| a l IH]; simpl; [lia |].
  destruct (NONOPTION_P a); simpl; lia.
Qed.

Lemma short_option_decreases (os nc : string) (tl : list string)
      (r : answer) (st' : state) :
  short_option os nc tl = (Some r, st') ->
  size st' < String.length nc + args_size tl.
Proof.
  unfold short_option.
  destruct nc as [| c nc']; [discriminate |].
  destruct (strchr os c) as [temp |].
  - destruct (Ascii.eqb c ":").
    + intros H; inversion H; subst; rewrite size_eq; simpl; lia.
    + destruct temp as [| x [| y temp']].
      * intros H; inversion H; subst; rewrite size_eq; simpl; lia.
      * intros H; inversion H; subst; rewrite size_eq; simpl; lia.
      * destruct (Ascii.eqb y ":") eqn:Hy.
        -- apply Ascii.eqb_eq in Hy; subst y.
           destruct nc' as [| d nc''].
           ++ destruct tl as [| x0 tl'];
                intros H; inversion H; subst; rewrite size_eq; simpl; lia.
           ++ intros H; inversion H; subst; rewrite size_eq; simpl; lia.
        -- assert (Hgen : (Some (c, @None string), mk_state tl nc') = (Some r, st') ->
                          size st' < String.length (String c nc') + args_size tl).
           { intros H; inversion H; subst; rewrite size_eq; simpl; lia. }
           intros H. apply Hgen. rewrite <- H.
           destruct y as [[] [] [] [] [] [] [] []]; try reflexivity;
             simpl in Hy; discriminate.
  - intros H; inversion H; subst; rewrite size_eq; simpl; lia.
Qed.

(** Every call that returns an option leaves less to scan. *)
Lemma getopt_decreases (posix : bool) (os : string) (st st' : state)
      (r : answer) :
  getopt posix os st = (Some r, st') -> size st' < size st.
Proof.
  unfold getopt. rewrite (size_eq st).
  destruct (nextchar st) as [| c nc] eqn:Hnc.
  - set (args := if posix then rest st else skip_nonoptions (rest st)).
    assert (Hargs : args_size args <= args_size (rest st)).
    { subst args. destruct posix; [lia | apply skip_nonoptions_size]. }
    destruct args as [| a tl]; [discriminate |].
    destruct (streq a "--"); [discriminate |].
    destruct (NONOPTION_P a); [discriminate |].
    destruct a as [| c0 nc]; [discriminate |].
    intros H. apply short_option_decreases in H.
    simpl in Hargs. simpl. lia.
  - intros H. apply short_option_decreases in H. simpl in *. lia.
Qed.

End GetoptFacts.

(** ** Facts about option parsing *)

Section Parsing.

Variable w : world.
Variable progname : string.

Lemma strchr_cons (x : ascii) (s : string) (c : ascii) :
  strchr (String x s) c
  = if Ascii.eqb x c then Some (String x s) else strchr s c.
Proof. reflexivity. Qed.

Lemma short_option_well_formed (nc : string) (tl : list string)
      (r : Getopt.answer) (st' : Getopt.state) :
  Getopt.short_option "a:jmsv" nc tl = (Some r, st') -> well_formed r.
Proof.
  unfold Getopt.short_option, well_formed.
  destruct nc as [| c nc']; [discriminate |].
  rewrite strchr_cons.
  destruct (Ascii.eqb "a" c) eqn:Ha.
  - apply Ascii.eqb_eq in Ha; subst c. cbn.
    destruct nc' as [| d nc''].
    + destruct tl as [| x tl']; intros H; inversion H; subst; simpl.
      * right; split; [discriminate | reflexivity].
      * left; eauto.
    + intros H; inversion H; subst; simpl. left; eauto.
  - assert (Hc : c <> "a"%char).
    { intros ->. rewrite Ascii.eqb_refl in Ha. discriminate. }
    assert (Hplain : forall o : option Getopt.answer,
               (o = Some (c, None) \/ o = Some ("?"%char, None)) ->
               (o, Getopt.mk_state tl nc') = (Some r, st') ->
               fst r = "a"%char /\ (exists x, snd r = Some x)
               \/ fst r <> "a"%char /\ snd r = None).
    { intros o [-> | ->] H; inversion H; subst; simpl; right; split;
        solve [assumption | discriminate | reflexivity]. }
    rewrite strchr_cons.
    destruct (Ascii.eqb ":" c) eqn:Hcolon.
    + apply Ascii.eqb_eq in Hcolon; subst c. cbn.
      apply Hplain; auto.
    + assert (Hcolon' : Ascii.eqb c ":" = false)
        by (rewrite Ascii.eqb_sym; exact Hcolon).
      rewrite Hcolon'.
      repeat (rewrite strchr_cons;
              match goal with
              | |- context [Ascii.eqb ?x c] => destruct (Ascii.eqb x c)
              end; [cbn; apply Hplain; auto |]).
      cbn. apply Hplain; auto.
Qed.

Lemma getopt_well_formed (posix : bool) (st st' : Getopt.state)
      (r : Getopt.answer) :
  Getopt.getopt posix "a:jmsv" st = (Some r, st') -> well_formed r.
Proof.
  unfold Getopt.getopt.
  destruct (Getopt.nextchar st) as [| c nc].
  - destruct (if posix then _ else _) as [| a tl]; [discriminate |].
    destruct (streq a "--"); [discriminate |].
    destruct (Getopt.NONOPTION_P a); [discriminate |].
    destruct a as [| c0 nc]; [discriminate |].
    apply short_option_well_formed.
  - apply short_option_well_formed.
Qed.

Lemma answers_well_formed (fuel : nat) (posix : bool) (st : Getopt.state) :
  Forall well_formed (Getopt.answers fuel posix "a:jmsv" st).
Proof.
  revert st. induction fuel as [| fuel IH]; intros st; simpl; [constructor |].
  destruct (Getopt.getopt posix "a:jmsv" st) as [[r |] st'] eqn:Hg;
    [| constructor].
  constructor; [eapply getopt_well_formed; eassumption | apply IH].
Qed.

(** The loop of [get_opts] is the switch run over the answers of
    [getopt], and its bound is never reached. *)
Lemma get_opts_loop_run_switch (fuel : nat) (st : Getopt.state)
      (opts : options) :
  Getopt.size st < fuel ->
  get_opts_loop fuel w progname st opts
  = run_switch progname
      (Getopt.answers fuel (POSIXLY_CORRECT w) "a:jmsv" st) opts.
Proof.
  revert st opts. induction fuel as [| fuel IH]; intros st opts Hsz; [lia |].
  simpl.
  destruct (Getopt.getopt (POSIXLY_CORRECT w) "a:jmsv" st)
    as [[[c oa] |] st'] eqn:Hg; [| reflexivity].
  apply GetoptFacts.getopt_decreases in Hg.
  simpl.
  destruct (Getopt.complains (c, oa));
    destruct (get_opts_switch progname c oa opts) as [t [o' | s | |]];
    simpl; try reflexivity;
    rewrite IH by lia; reflexivity.
Qed.

(** What the switch does with one well-formed answer. *)
Lemma get_opts_switch_action (r : Getopt.answer) (opts : options) :
  well_formed r -> action_answer r = true ->
  exists opts',
    get_opts_switch progname (fst r) (snd r) opts = ([], Ret opts')
    /\ script opts' = script opts /\ verbose opts' = verbose opts
    /\ statement_of opts' <> None.
Proof.
  destruct r as [c oa]. unfold well_formed, action_answer, get_opts_switch.
  simpl. intros [[-> [x ->]] | [Hc ->]] Hact.
  - simpl. eexists; repeat split. discriminate.
  - destruct (Ascii.eqb c "a") eqn:Ha.
    { apply Ascii.eqb_eq in Ha. contradiction. }
    destruct (Ascii.eqb c "j");
      [eexists; repeat split; discriminate |].
    destruct (Ascii.eqb c "m");
      [eexists; repeat split; discriminate |].
    destruct (Ascii.eqb c "s");
      [eexists; repeat split; discriminate |].
    discriminate.
Qed.

Lemma get_opts_switch_other (r : Getopt.answer) (opts : options) :
  action_answer r = false ->
  get_opts_switch progname (fst r) (snd r) opts
  = ([pg_log_error (usage_hint progname)], Exit EXIT_FAILURE).
Proof.
  destruct r as [c oa]. unfold action_answer, get_opts_switch. simpl.
  destruct (Ascii.eqb c "a"); [discriminate |].
  destruct (Ascii.eqb c "j"); [discriminate |].
  destruct (Ascii.eqb c "m"); [discriminate |].
  destruct (Ascii.eqb c "s"); [discriminate |].
  reflexivity.
Qed.

End Parsing.

Section RunSwitch.

Variable progname : string.

Lemma action_answer_quiet (r : Getopt.answer) :
  action_answer r = true -> Getopt.complains r = false.
Proof.
  destruct r as [c oa]. unfold action_answer, Getopt.complains. simpl.
  destruct (Ascii.eqb c "?") eqn:Hc; [| reflexivity].
  apply Ascii.eqb_eq in Hc; subst c. discriminate.
Qed.

(** When every answer is an action option the switch returns, silently,
    without touching [script] and [verbose]; once an action option has
    been seen the dispatch of [main] has a statement to run. *)
Lemma run_switch_actions (l : list Getopt.answer) (opts : options) :
  Forall well_formed l -> forallb action_answer l = true ->
  exists opts',
    run_switch progname l opts = ([], Ret opts')
    /\ script opts' = script opts /\ verbose opts' = verbose opts
    /\ (l = [] -> opts' = opts)
    /\ (l <> [] -> statement_of opts' <> None).
Proof.
  intros Hwf. revert opts.
  induction Hwf as [| r l Hr Hl IH]; intros opts Hall.
  - exists opts. simpl. repeat split; auto; congruence.
  - simpl in Hall. apply andb_true_iff in Hall as [Hact Hall].
    destruct (get_opts_switch_action progname r opts Hr Hact)
      as (o1 & Hsw & Hs1 & Hv1 & Hst1).
    destruct (IH o1 Hall) as (o2 & Hrun & Hs2 & Hv2 & Hnil & Hcons).
    exists o2. pose proof (action_answer_quiet r Hact) as Hquiet.
    destruct r as [c oa]. simpl in *.
    rewrite Hquiet, Hsw. simpl. rewrite Hrun.
    repeat split; try congruence.
    intros _. destruct l as [| r' l'].
    + rewrite (Hnil eq_refl). exact Hst1.
    + apply Hcons. discriminate.
Qed.

(** As soon as one answer is not an action option (that is [v] or [?])
    the switch reports the usage error and exits; before that only
    [getopt] may have written something. *)
Lemma run_switch_other (l : list Getopt.answer) (opts : options) :
  Forall well_formed l -> forallb action_answer l = false ->
  run_switch progname l opts
  = (complaint l ++ [pg_log_error (usage_hint progname)], Exit EXIT_FAILURE).
Proof.
  intros Hwf. revert opts.
  induction Hwf as [| r l Hr Hl IH]; intros opts Hall; [discriminate |].
  simpl in Hall. simpl complaint.
  destruct (action_answer r) eqn:Hact.
  - destruct (get_opts_switch_action progname r opts Hr Hact)
      as (o1 & Hsw & _).
    pose proof (action_answer_quiet r Hact) as Hquiet.
    destruct r as [c oa]. simpl in *.
    rewrite Hquiet, Hsw. simpl. rewrite (IH o1 Hall). reflexivity.
  - pose proof (get_opts_switch_other progname r opts Hact) as Hsw.
    destruct r as [c oa]. simpl in *. rewrite Hsw.
    destruct (Getopt.complains (c, oa)); reflexivity.
Qed.

End RunSwitch.

(** [get_opts], case by case. *)
Lemma get_opts_info (w : world) (argv : list string) (opts : options) :
  info_first argv = true ->
  get_opts w argv opts = ([stdout (info_text w argv)], Exit 0%Z).
Proof.
  destruct argv as [| argv0 [| argv1 args]]; try discriminate.
  unfold info_first, get_opts, info_text.
  destruct (streq argv1 "--help" || streq argv1 "-?") eqn:Hhelp.
  - reflexivity.
  - simpl. intros ->. reflexivity.
Qed.

Lemma get_opts_scan (w : world) (argv0 : string) (args : list string)
      (opts : options) :
  info_first (argv0 :: args) = false ->
  get_opts w (argv0 :: args) opts
  = run_switch (get_progname argv0) (scanned w (argv0 :: args))
               (set_verbose false (set_script None opts)).
Proof.
  intros Hinfo. unfold get_opts, scanned.
  rewrite <- get_opts_loop_run_switch by lia.
  destruct args as [| argv1 args'].
  - rewrite bind_ret. reflexivity.
  - simpl in Hinfo.
    destruct (streq argv1 "--help" || streq argv1 "-?"); [discriminate |].
    simpl in Hinfo. rewrite Hinfo.
    rewrite !bind_ret. reflexivity.
Qed.

(** Option parsing always ends: it returns the options or exits, with
    status 0 or [EXIT_FAILURE]. *)
Lemma get_opts_total (w : world) (argv0 : string) (args : list string)
      (opts : options) :
  (exists opts', get_opts w (argv0 :: args) opts = ([], Ret opts'))
  \/ (exists t s, get_opts w (argv0 :: args) opts = (t, Exit s)).
Proof.
  destruct (info_first (argv0 :: args)) eqn:Hinfo.
  - right. rewrite get_opts_info by assumption. eauto.
  - rewrite get_opts_scan by assumption.
    pose proof (answers_well_formed
                  (S (Getopt.size (Getopt.init (argv0 :: args))))
                  (POSIXLY_CORRECT w) (Getopt.init (argv0 :: args))) as Hwf.
    fold (scanned w (argv0 :: args)) in Hwf.
    destruct (forallb action_answer (scanned w (argv0 :: args))) eqn:Hall.
    + left.
      destruct (run_switch_actions (get_progname argv0) _
                  (set_verbose false (set_script None opts)) Hwf Hall)
        as (o' & Hrun & _).
      eauto.
    + right. rewrite run_switch_other by assumption. eauto.
Qed.

(** When [get_opts] returns, it has printed nothing, every option it met
    was an action option, and [script] and [verbose] hold their defaults. *)
Lemma get_opts_returns (w : world) (argv : list string) (g opts : options)
      (t : list event) :
  get_opts w argv g = (t, Ret opts) ->
  info_first argv = false
  /\ t = []
  /\ forallb action_answer (scanned w argv) = true
  /\ script opts = None /\ verbose opts = false
  /\ (scanned w argv = [] -> opts = set_verbose false (set_script None g))
  /\ (scanned w argv <> [] -> statement_of opts <> None).
Proof.
  destruct argv as [| argv0 args]; [discriminate |].
  destruct (info_first (argv0 :: args)) eqn:Hinfo.
  { rewrite get_opts_info by assumption. discriminate. }
  rewrite get_opts_scan by assumption.
  pose proof (answers_well_formed
                (S (Getopt.size (Getopt.init (argv0 :: args))))
                (POSIXLY_CORRECT w) (Getopt.init (argv0 :: args))) as Hwf.
  fold (scanned w (argv0 :: args)) in Hwf.
  destruct (forallb action_answer (scanned w (argv0 :: args))) eqn:Hall.
  - destruct (run_switch_actions (get_progname argv0) _
                (set_verbose false (set_script None g)) Hwf Hall)
      as (o' & Hrun & Hs & Hv & Hnil & Hcons).
    rewrite Hrun. intros H. inversion H; subst. simpl in *.
    repeat split; auto.
  - rewrite run_switch_other by assumption. discriminate.
Qed.

(** [main], once the outcome of [get_opts] is known. *)
Lemma main_get_opts_returns (w : world) (g opts : options) (argv0 : string)
      (args : list string) :
  get_opts w (argv0 :: args) g = ([], Ret opts) ->
  main w g (argv0 :: args)
  = (pqsignal_SIGINT :: trace (run_action w (get_progname argv0) opts),
     result (run_action w (get_progname argv0) opts)).
Proof.
  intros H. unfold main. rewrite H. simpl.
  destruct (run_action w (get_progname argv0) opts) as [t r]. reflexivity.
Qed.

Lemma main_get_opts_exits (w : world) (g : options) (argv0 : string)
      (args : list string) (t : list event) (s : Z) :
  get_opts w (argv0 :: args) g = (t, Exit s) ->
  main w g (argv0 :: args) = (pqsignal_SIGINT :: t, Exit s).
Proof. intros H. unfold main. rewrite H. reflexivity. Qed.

(** [main] always ends within the bound given to the option loop. *)
Lemma main_within_bound (w : world) (g : options) (argv : list string) :
  result (main w g argv) <> OutOfFuel.
Proof.
  destruct argv as [| argv0 args]; [discriminate |].
  destruct (get_opts_total w argv0 args g) as [[o H] | (t & s & H)].
  - rewrite (main_get_opts_returns _ _ _ _ _ H). simpl.
    unfold run_action, connect, execute, fetch_table, fetch_failed.
    destruct (connectDatabase_result w) as [c |]; [| cbn; discriminate].
    cbn [bind emit ret app].
    repeat match goal with
           | |- context [(action o =? ?v)%Z] => destruct (action o =? v)%Z
           end;
      destruct (script o); try destruct (heures o) as [h |];
      repeat match goal with
             | |- context [PQexec_result w c ?q] =>
                 destruct (PQexec_result w c q) as [r |]
             | |- context [(2 <? ?x)%Z] => destruct (2 <? x)%Z
             end; cbn [bind emit ret app exit undefined result snd];
      discriminate.
  - rewrite (main_get_opts_exits _ _ _ _ _ _ H). discriminate.
Qed.

(** ** Facts about the dispatch *)

Section Dispatch.

Variable w : world.
Variable progname : string.
Variable conn : PGconn.
Hypothesis connected : connectDatabase_result w = Some conn.

(** [execute] when [PQexec] returns NULL: the two log lines, the
    connection closed, the process ended with [EXIT_FAILURE]. *)
Lemma execute_null (opts : options) (query : string) :
  script opts = None -> PQexec_result w conn query = None ->
  execute w opts conn query
  = ([PQexec conn query;
      pg_log_error ("query failed: " ++ PQerrorMessage w);
      pg_log_info ("query was: " ++ query);
      PQclear None; PQfinish (Some conn)], Exit EXIT_FAILURE).
Proof. intros Hs Hq. unfold execute. rewrite Hs, Hq. reflexivity. Qed.

(** [execute] when [PQexec] returns a result, whatever its status: the
    result is cleared and nothing is written. *)
Lemma execute_result (opts : options) (query : string) (r : PGresult) :
  script opts = None -> PQexec_result w conn query = Some r ->
  execute w opts conn query
  = ([PQexec conn query; PQclear (Some r)], Ret tt).
Proof. intros Hs Hq. unfold execute. rewrite Hs, Hq. reflexivity. Qed.

(** Outside script mode the statement of the selected action is handed
    to [PQexec], and nothing is written to standard output. *)
Lemma run_action_submits (opts : options) (q : string) :
  script opts = None -> statement_of opts = Some q ->
  In (PQexec conn q) (trace (run_action w progname opts))
  /\ stdout_of (trace (run_action w progname opts)) = [].
Proof.
  intros Hs. unfold statement_of, run_action, connect.
  rewrite connected.
  destruct (action opts =? enum_value AJOUT)%Z.
  { destruct (heures opts) as [h |]; [| discriminate].
    simpl. intros Hq; inversion Hq; subst.
    unfold execute. rewrite Hs.
    destruct (PQexec_result w conn (insert_sql h)); simpl; auto. }
  unfold fetch_table. rewrite Hs.
  repeat match goal with
         | |- context [(action opts =? ?v)%Z] => destruct (action opts =? v)%Z
         end;
    simpl; intros Hq; inversion Hq; subst;
    match goal with
    | |- context [PQexec_result w conn ?q] =>
        destruct (PQexec_result w conn q) as [r |]; simpl;
        [destruct (2 <? resultStatus r)%Z |]; simpl; auto
    end.
Qed.

(** The default case of the dispatch. *)
Lemma run_action_default (opts : options) :
  action opts <> enum_value AJOUT -> action opts <> enum_value JOURS ->
  action opts <> enum_value MOIS -> action opts <> enum_value SEMAINES ->
  run_action w progname opts
  = ([connectDatabase cparams progname; pg_log_error "No action defined";
      PQfinish (Some conn); pg_free_opts], Ret 0%Z).
Proof.
  intros H1 H2 H3 H4. unfold run_action, connect. rewrite connected.
  apply Z.eqb_neq in H1, H2, H3, H4. rewrite H1, H2, H3, H4.
  reflexivity.
Qed.

End Dispatch.

(** ** Help and version *)

(** C3, counterexample: [clientcomptage -j --help] ends with the usage
    error and status 1, and prints nothing on standard output. *)
Lemma C3_help_after_option_is_usage_error : ~ info_anywhere_claim.
Proof.
  intros H.
  destruct (H Sample.up Sample.zeroed ["clientcomptage"; "-j"; "--help"]
              eq_refl) as (_ & Hstatus & _).
  vm_compute in Hstatus. discriminate.
Qed.

(** C3, amended: when [--help], [-?], [--version] or [-V] is the first
    argument, whatever follows it, the program prints the corresponding
    text, exits with status 0 and does not attempt a connection. *)
Theorem C3_info_first_exits_0 (w : world) (g : options)
        (argv : list string) :
  info_first argv = true ->
  main w g argv = ([pqsignal_SIGINT; stdout (info_text w argv)], Exit 0%Z)
  /\ stdout_of (trace (main w g argv)) = [info_text w argv]
  /\ exit_status (main w g argv) = Some 0%Z
  /\ existsb is_connectDatabase (trace (main w g argv)) = false.
Proof.
  intros Hinfo.
  assert (Hmain : main w g argv
                  = ([pqsignal_SIGINT; stdout (info_text w argv)], Exit 0%Z)).
  { destruct argv as [| argv0 args]; [discriminate |].
    apply main_get_opts_exits. apply get_opts_info. exact Hinfo. }
  rewrite Hmain. repeat split.
Qed.

Lemma C3_info_first_exits_0_witness :
  info_first ["clientcomptage"; "--version"; "-x"; "-a"] = true
  /\ main Sample.up Sample.dirty ["clientcomptage"; "--version"; "-x"; "-a"]
     = ([pqsignal_SIGINT;
         stdout ("pgreport 0.0.1 (compiled with PostgreSQL 14.2)" ++ nl)],
        Exit 0%Z).
Proof.
  split; [reflexivity |].
  apply (C3_info_first_exits_0 Sample.up Sample.dirty
           ["clientcomptage"; "--version"; "-x"; "-a"]).
  reflexivity.
Defined.

(** ** The verbose flag and the long options *)

(** C4: [-v] is in the option string, but the switch has no case for it:
    the invocation ends with the usage error, under any environment. *)
Theorem C4_verbose_flag_is_usage_error (w : world) (g : options)
        (argv0 : string) :
  main w g [argv0; "-v"]
  = ([pqsignal_SIGINT; pg_log_error (usage_hint (get_progname argv0))],
     Exit EXIT_FAILURE).
Proof.
  apply main_get_opts_exits.
  rewrite get_opts_scan by reflexivity.
  unfold scanned. destruct (POSIXLY_CORRECT w); reflexivity.
Qed.

(** C5: the long forms are given to [getopt], which knows short options
    only and rejects the second dash: each of them ends with the usage
    error instead of a report. *)
Theorem C5_long_options_are_usage_errors (w : world) (g : options)
        (argv0 : string) :
  let usage_error :=
    ([pqsignal_SIGINT; getopt_error;
      pg_log_error (usage_hint (get_progname argv0))],
     Exit EXIT_FAILURE) in
  main w g [argv0; "--jour"] = usage_error
  /\ main w g [argv0; "--mois"] = usage_error
  /\ main w g [argv0; "--semaines"] = usage_error.
Proof.
  repeat split; apply main_get_opts_exits;
    rewrite get_opts_scan by reflexivity;
    unfold scanned; destruct (POSIXLY_CORRECT w); reflexivity.
Qed.

(** ** Unrecognized flags *)

Lemma complaint_no_connection (l : list Getopt.answer) :
  existsb is_connectDatabase (complaint l) = false.
Proof.
  induction l as [| r l IH]; simpl; [reflexivity |].
  destruct (action_answer r); [exact IH |].
  destruct (Getopt.complains r); reflexivity.
Qed.

(** C6, counterexample: [clientcomptage --help -x] prints the help and
    exits with status 0, although [-x] is not a recognized flag. *)
Lemma C6_unrecognized_flag_after_help : ~ unrecognized_flag_claim.
Proof.
  intros H.
  destruct (H Sample.up Sample.zeroed "clientcomptage" ["--help"; "-x"]
              eq_refl) as (_ & (s & Hs & Hnz) & _).
  vm_compute in Hs. inversion Hs; subst. apply Hnz. reflexivity.
Qed.

(** The same flag is not met by the scan either when it is the value of
    [-a] or when it stands after [--]: the connection is then attempted. *)
Lemma unrecognized_flag_not_scanned :
  existsb is_connectDatabase
    (trace (main Sample.up Sample.zeroed ["clientcomptage"; "-a"; "-x"]))
  = true
  /\ existsb is_connectDatabase
       (trace (main Sample.up Sample.zeroed ["clientcomptage"; "--"; "-x"]))
     = true.
Proof. split; reflexivity. Qed.

(** C6, amended: when the first argument is not a help or version flag and
    the option scan meets an option character that [getopt] rejects (it
    answers [?]: a character outside [a], [j], [m], [s], [v], or [-a]
    without its value), the program logs the hint naming the program, exits
    with [EXIT_FAILURE] and attempts no connection. *)
Theorem C6_rejected_option_is_usage_error (w : world) (g : options)
        (argv0 : string) (args : list string) :
  info_first (argv0 :: args) = false ->
  In ("?"%char, None) (scanned w (argv0 :: args)) ->
  main w g (argv0 :: args)
  = (pqsignal_SIGINT :: complaint (scanned w (argv0 :: args))
       ++ [pg_log_error (usage_hint (get_progname argv0))],
     Exit EXIT_FAILURE)
  /\ existsb is_connectDatabase (trace (main w g (argv0 :: args))) = false.
Proof.
  intros Hinfo Hin.
  assert (Hmain : main w g (argv0 :: args)
                  = (pqsignal_SIGINT :: complaint (scanned w (argv0 :: args))
                       ++ [pg_log_error (usage_hint (get_progname argv0))],
                     Exit EXIT_FAILURE)).
  { apply main_get_opts_exits. rewrite get_opts_scan by assumption.
    apply run_switch_other.
    - apply answers_well_formed.
    - apply not_true_is_false. intros Hall.
      rewrite forallb_forall in Hall. specialize (Hall _ Hin).
      discriminate. }
  rewrite Hmain. split; [reflexivity |].
  simpl. rewrite existsb_app. simpl. rewrite orb_false_r.
  apply complaint_no_connection.
Qed.

Lemma C6_rejected_option_is_usage_error_witness :
  info_first ["/usr/bin/clientcomptage"; "-j"; "-x"; "-m"] = false
  /\ In ("?"%char, None)
        (scanned Sample.up ["/usr/bin/clientcomptage"; "-j"; "-x"; "-m"])
  /\ main Sample.up Sample.zeroed ["/usr/bin/clientcomptage"; "-j"; "-x"; "-m"]
     = ([pqsignal_SIGINT; getopt_error;
         pg_log_error ("Try " ++ dq ++ "clientcomptage --help" ++ dq
                       ++ " for more information." ++ nl)],
        Exit 1%Z).
Proof.
  split; [reflexivity |].
  split; [vm_compute; auto |].
  apply (C6_rejected_option_is_usage_error Sample.up Sample.zeroed
           "/usr/bin/clientcomptage" ["-j"; "-x"; "-m"]).
  - reflexivity.
  - vm_compute; auto.
Defined.

(** ** Insertion *)

(** C2: an insertion that the server rejects comes back from [PQexec] as a
    result whose status is an error, not as NULL; [execute] only tests for
    NULL, so nothing is logged and [main] returns 0.  ([fetch_table] tests
    the status as well.) *)
Theorem C2_insert_error_result_ignored (g : options) (argv0 : string) :
  main Sample.rejecting g [argv0; "-a"; "hier, demain"]
  = ([pqsignal_SIGINT;
      connectDatabase cparams (get_progname argv0);
      PQexec 1 "INSERT INTO public.comptage (deb,fin) VALUES (hier, demain)";
      PQclear (Some Sample.fatal_error);
      PQfinish (Some 1); pg_free_opts], Ret 0%Z)
  /\ fetch_failed (Some Sample.fatal_error) = true.
Proof. split; reflexivity. Qed.

(** The part of the same property that the code has: a NULL result is
    logged with the query, the connection is closed and the status is
    [EXIT_FAILURE]; a result is cleared without any output. *)
Lemma insert_null_result (w : world) (g : options) (argv0 payload : string)
      (c : PGconn) :
  connectDatabase_result w = Some c ->
  PQexec_result w c (insert_sql payload) = None ->
  main w g [argv0; "-a"; payload]
  = ([pqsignal_SIGINT;
      connectDatabase cparams (get_progname argv0);
      PQexec c (insert_sql payload);
      pg_log_error ("query failed: " ++ PQerrorMessage w);
      pg_log_info ("query was: " ++ insert_sql payload);
      PQclear None; PQfinish (Some c)], Exit EXIT_FAILURE).
Proof.
  intros Hc Hq.
  assert (Hopts : get_opts w [argv0; "-a"; payload] g
                  = ([], Ret (set_heures payload
                                (set_action AJOUT
                                   (set_verbose false (set_script None g)))))).
  { rewrite get_opts_scan by reflexivity.
    unfold scanned. destruct (POSIXLY_CORRECT w); reflexivity. }
  rewrite (main_get_opts_returns _ _ _ _ _ Hopts).
  unfold run_action, connect. rewrite Hc.
  cbn [bind emit ret app action set_heures set_action heures].
  change (enum_value AJOUT =? enum_value AJOUT)%Z with true.
  cbv iota.
  rewrite execute_null by (reflexivity || assumption). reflexivity.
Qed.

(** ** No action *)

(** C7: when option parsing returns and the action it leaves is none of
    insert, day, month, week, then, the connection being established, the
    program logs [No action defined], closes the connection after that and
    returns. *)
Theorem C7_no_action_defined (w : world) (g opts : options)
        (argv0 : string) (args : list string) (t : list event)
        (c : PGconn) :
  get_opts w (argv0 :: args) g = (t, Ret opts) ->
  action opts <> enum_value AJOUT -> action opts <> enum_value JOURS ->
  action opts <> enum_value MOIS -> action opts <> enum_value SEMAINES ->
  connectDatabase_result w = Some c ->
  main w g (argv0 :: args)
  = ([pqsignal_SIGINT;
      connectDatabase cparams (get_progname argv0);
      pg_log_error "No action defined";
      PQfinish (Some c); pg_free_opts], Ret 0%Z).
Proof.
  intros Hopts H1 H2 H3 H4 Hc.
  destruct (get_opts_returns _ _ _ _ _ Hopts) as (_ & -> & _).
  rewrite (main_get_opts_returns _ _ _ _ _ Hopts).
  rewrite (run_action_default w _ c Hc opts H1 H2 H3 H4). reflexivity.
Qed.

Lemma C7_no_action_defined_witness :
  get_opts Sample.up ["clientcomptage"] Sample.zeroed
  = ([], Ret Sample.zeroed)
  /\ main Sample.up Sample.zeroed ["clientcomptage"]
     = ([pqsignal_SIGINT;
         connectDatabase cparams "clientcomptage";
         pg_log_error "No action defined";
         PQfinish (Some 1); pg_free_opts], Ret 0%Z).
Proof.
  split; [reflexivity |].
  apply (C7_no_action_defined Sample.up Sample.zeroed Sample.zeroed
           "clientcomptage" [] [] 1).
  - reflexivity.
  - discriminate.
  - discriminate.
  - discriminate.
  - discriminate.
  - reflexivity.
Defined.

(** ** Interruption *)

(** A signal that arrives while the connection is open and before the
    program has closed it: the handler closes it, once. *)
Lemma sigint_closes_once (w : world) (k : nat) (p r : proc Z) (c : PGconn) :
  sigint w k p = Some r ->
  conn_after w (firstn k (trace p)) = Some c ->
  PQfinish_count c (firstn k (trace p)) = 0 ->
  PQfinish_count c (trace r) = 1 /\ result r = Exit EXIT_FAILURE.
Proof.
  unfold sigint.
  destruct ((k <=? List.length (trace p))%nat
            && existsb is_pqsignal (firstn k (trace p))); [| discriminate].
  intros H Hconn Hcount. inversion H; subst; clear H.
  rewrite Hconn. unfold PQfinish_count in *. simpl.
  rewrite filter_app, length_app. simpl.
  rewrite Nat.eqb_refl. simpl. split; [lia | reflexivity].
Qed.

(** C8: [main] has closed the connection (line 407) and has not returned
    yet when SIGINT arrives: [quit_properly] calls [PQfinish] on the same
    handle a second time. *)
Theorem C8_sigint_after_close_closes_twice (g : options) :
  let p := main Sample.up g ["clientcomptage"; "-j"] in
  trace p
  = [pqsignal_SIGINT;
     connectDatabase cparams "clientcomptage";
     PQexec 1 "SELECT * FROM public.jours_v";
     printQuery (myopt "Jours") Sample.tuples_ok;
     PQclear (Some Sample.tuples_ok);
     PQfinish (Some 1); pg_free_opts]
  /\ sigint Sample.up 6 p
     = Some ([pqsignal_SIGINT;
              connectDatabase cparams "clientcomptage";
              PQexec 1 "SELECT * FROM public.jours_v";
              printQuery (myopt "Jours") Sample.tuples_ok;
              PQclear (Some Sample.tuples_ok);
              PQfinish (Some 1);
              PQfinish (Some 1)], Exit EXIT_FAILURE)
  /\ option_map (fun r => PQfinish_count 1 (trace r)) (sigint Sample.up 6 p)
     = Some 2.
Proof. cbv zeta. repeat split. Qed.

(** ** The script field *)

(** C9: whatever the command line, when option parsing returns the script
    field is NULL; if an action option was given the dispatch has a
    statement; and, the connection being established, the statement of the
    dispatch is handed to [PQexec] while nothing goes to standard output. *)
Theorem C9_script_never_set (w : world) (g opts : options)
        (argv : list string) (t : list event) :
  get_opts w argv g = (t, Ret opts) ->
  script opts = None
  /\ (existsb action_answer (scanned w argv) = true ->
      exists q, statement_of opts = Some q)
  /\ (forall (q : string) (c : PGconn),
        statement_of opts = Some q -> connectDatabase_result w = Some c ->
        In (PQexec c q) (trace (main w g argv))
        /\ stdout_of (trace (main w g argv)) = []).
Proof.
  intros Hopts.
  destruct (get_opts_returns _ _ _ _ _ Hopts)
    as (Hinfo & -> & Hall & Hs & Hv & Hnil & Hcons).
  split; [exact Hs |]. split.
  - intros Hex.
    destruct (statement_of opts) as [q |] eqn:Hq; [eauto |].
    exfalso. apply Hcons; [| reflexivity].
    intros Hempty. rewrite Hempty in Hex. discriminate.
  - intros q c Hq Hc.
    destruct argv as [| argv0 args]; [discriminate |].
    rewrite (main_get_opts_returns _ _ _ _ _ Hopts). simpl.
    destruct (run_action_submits w (get_progname argv0) c Hc opts q Hs Hq)
      as [Hin Hout].
    auto.
Qed.

Lemma C9_script_never_set_witness :
  let argv := ["clientcomptage"; "-m"; "-a"; "'08:00', '12:00'"] in
  let opts := mk_options None false (enum_value AJOUT)
                         (Some "'08:00', '12:00'") None 0 0 in
  get_opts Sample.up argv Sample.dirty = ([], Ret opts)
  /\ script opts = None
  /\ In (PQexec 1 "INSERT INTO public.comptage (deb,fin) VALUES ('08:00', '12:00')")
        (trace (main Sample.up Sample.dirty argv)).
Proof.
  cbv zeta.
  pose proof (C9_script_never_set Sample.up Sample.dirty
                (mk_options None false (enum_value AJOUT)
                            (Some "'08:00', '12:00'") None 0 0)
                ["clientcomptage"; "-m"; "-a"; "'08:00', '12:00'"] []
                eq_refl) as (Hs & _ & Hexec).
  split; [reflexivity |]. split; [exact Hs |].
  apply (Hexec _ 1 eq_refl eq_refl).
Defined.

(** ** Uninitialized fields *)

(** C10: when option parsing returns without having met an action option,
    it has assigned [script] and [verbose] only: [action] and [heures] are
    what the allocator left, and the dispatch reads them.  The run is then
    not fixed by the command line and the database: another content of the
    block gives another run. *)
Theorem C10_no_action_reads_garbage (w : world) (g opts : options)
        (argv : list string) (t : list event) :
  get_opts w argv g = (t, Ret opts) ->
  existsb action_answer (scanned w argv) = false ->
  opts = set_verbose false (set_script None g)
  /\ action opts = action g /\ heures opts = heures g
  /\ (forall c, connectDatabase_result w = Some c ->
        exists g', main w g' argv <> main w g argv).
Proof.
  intros Hopts Hnone.
  destruct (get_opts_returns _ _ _ _ _ Hopts)
    as (Hinfo & -> & Hall & _ & _ & Hnil & _).
  assert (Hempty : scanned w argv = []).
  { destruct (scanned w argv) as [| r l]; [reflexivity |].
    simpl in Hall, Hnone.
    apply andb_true_iff in Hall as [Hr _].
    rewrite Hr in Hnone. discriminate. }
  specialize (Hnil Hempty). subst opts.
  split; [reflexivity |]. split; [reflexivity |]. split; [reflexivity |].
  intros c Hc.
  destruct argv as [| argv0 args]; [discriminate |].
  assert (Hg : forall g0, get_opts w (argv0 :: args) g0
                          = ([], Ret (set_verbose false (set_script None g0)))).
  { intros g0. rewrite get_opts_scan by assumption.
    rewrite Hempty. reflexivity. }
  assert (Hrun : forall g0,
             existsb is_PQexec (trace (main w g0 (argv0 :: args)))
             = existsb is_PQexec
                 (trace (run_action w (get_progname argv0)
                           (set_verbose false (set_script None g0))))).
  { intros g0. rewrite (main_get_opts_returns _ _ _ _ _ (Hg g0)).
    reflexivity. }
  destruct (existsb is_PQexec (trace (main w g (argv0 :: args)))) eqn:Hobs.
  - exists (set_action NONE g). intros Heq.
    rewrite <- Heq, Hrun in Hobs.
    unfold run_action, connect in Hobs. rewrite Hc in Hobs.
    discriminate.
  - exists (set_action JOURS g). intros Heq.
    rewrite <- Heq, Hrun in Hobs.
    destruct (run_action_submits w (get_progname argv0) c Hc
                (set_verbose false (set_script None (set_action JOURS g)))
                "SELECT * FROM public.jours_v" eq_refl eq_refl) as [Hin _].
    assert (Hex : existsb is_PQexec
                    (trace (run_action w (get_progname argv0)
                              (set_verbose false
                                 (set_script None (set_action JOURS g)))))
                  = true).
    { apply existsb_exists. eexists. split; [exact Hin | reflexivity]. }
    rewrite Hex in Hobs. discriminate.
Qed.

Lemma C10_no_action_reads_garbage_witness :
  get_opts Sample.up ["clientcomptage"] Sample.dirty
  = ([], Ret (mk_options None false (enum_value JOURS) None None 0 0))
  /\ action (mk_options None false (enum_value JOURS) None None 0 0)
     = action Sample.dirty
  /\ main Sample.up Sample.zeroed ["clientcomptage"]
     <> main Sample.up Sample.dirty ["clientcomptage"].
Proof.
  pose proof (C10_no_action_reads_garbage Sample.up Sample.dirty
                (mk_options None false (enum_value JOURS) None None 0 0)
                ["clientcomptage"] [] eq_refl eq_refl)
    as (_ & Ha & _ & _).
  split; [reflexivity |]. split; [exact Ha |].
  discriminate.
Defined.

Lemma firstn_all_but_last {A : Type} (l : list A) (x : A) :
  firstn (List.length (l ++ [x]) - 1) (l ++ [x]) = l.
Proof.
  rewrite length_app. simpl.
  replace (List.length l + 1 - 1) with (List.length l) by lia.
  rewrite firstn_app, Nat.sub_diag, firstn_all. simpl. apply app_nil_r.
Qed.

(** The same window exists in every run that reaches the end of [main]:
    the trace ends with the program's own [PQfinish] followed by [pg_free],
    and a signal delivered between the two closes the connection again. *)
Lemma execute_returns_open (w : world) (opts : options) (c c' : PGconn)
      (query : string) (t : list event) :
  execute w opts c query = (t, Ret tt) -> PQfinish_count c' t = 0.
Proof.
  unfold execute.
  destruct (script opts); [intros H; inversion H; reflexivity |].
  destruct (PQexec_result w c query);
    intros H; inversion H; reflexivity.
Qed.

Lemma fetch_table_returns_open (w : world) (opts : options) (c c' : PGconn)
      (label query : string) (t : list event) :
  fetch_table w opts c label query = (t, Ret tt) -> PQfinish_count c' t = 0.
Proof.
  unfold fetch_table.
  destruct (script opts); [intros H; inversion H; reflexivity |].
  destruct (PQexec_result w c query) as [r |]; simpl.
  - destruct (2 <? resultStatus r)%Z; intros H; inversion H; reflexivity.
  - discriminate.
Qed.

Lemma run_action_returns (w : world) (progname : string) (opts : options)
      (c : PGconn) (t : list event) (s : Z) :
  connectDatabase_result w = Some c ->
  run_action w progname opts = (t, Ret s) ->
  exists body,
    t = connectDatabase cparams progname :: body
          ++ [PQfinish (Some c); pg_free_opts]
    /\ PQfinish_count c body = 0.
Proof.
  intros Hc. unfold run_action, connect. rewrite Hc.
  cbn [bind emit ret app].
  match goal with
  | |- (let (t', r) := bind ?body _ in _) = _ -> _ =>
      destruct body as [tb [[] | s' | |]] eqn:Hbody
  end; cbn [bind emit ret app]; try discriminate.
  intros H. inversion H; subst; clear H.
  exists tb. split; [reflexivity |].
  repeat match type of Hbody with
         | (if ?b then _ else _) = _ => destruct b
         end.
  - destruct (heures opts); [| discriminate].
    eapply execute_returns_open; eassumption.
  - eapply fetch_table_returns_open; eassumption.
  - eapply fetch_table_returns_open; eassumption.
  - eapply fetch_table_returns_open; eassumption.
  - inversion Hbody. reflexivity.
Qed.

Lemma sigint_before_pg_free_closes_twice (w : world) (g : options)
      (argv : list string) (c : PGconn) (t : list event) (s : Z) :
  connectDatabase_result w = Some c ->
  main w g argv = (t, Ret s) ->
  exists r,
    sigint w (List.length t - 1) (main w g argv) = Some r
    /\ PQfinish_count c (trace r) = 2
    /\ result r = Exit EXIT_FAILURE.
Proof.
  intros Hc Hmain.
  destruct argv as [| argv0 args]; [discriminate |].
  destruct (get_opts_total w argv0 args g) as [[o Ho] | (t' & s' & Ho)].
  2: { rewrite (main_get_opts_exits _ _ _ _ _ _ Ho) in Hmain. discriminate. }
  pose proof Hmain as Hm.
  rewrite (main_get_opts_returns _ _ _ _ _ Ho) in Hmain.
  destruct (run_action w (get_progname argv0) o) as [ta ra] eqn:Hrun.
  simpl in Hmain. inversion Hmain; subst; clear Hmain.
  rewrite Hm.
  destruct (run_action_returns _ _ _ _ _ _ Hc Hrun) as (body & -> & Hopen).
  set (before := pqsignal_SIGINT
                   :: connectDatabase cparams (get_progname argv0)
                   :: body ++ [PQfinish (Some c)]).
  assert (Hfirst :
            firstn (List.length
                      (pqsignal_SIGINT
                         :: connectDatabase cparams (get_progname argv0)
                         :: body ++ [PQfinish (Some c); pg_free_opts]) - 1)
                   (pqsignal_SIGINT
                      :: connectDatabase cparams (get_progname argv0)
                      :: body ++ [PQfinish (Some c); pg_free_opts])
            = before).
  { pose proof (firstn_all_but_last before pg_free_opts) as Hcut.
    subst before. simpl app in Hcut. rewrite <- app_assoc in Hcut.
    exact Hcut. }
  unfold sigint. cbn [trace fst]. rewrite Hfirst.
  replace ((List.length
              (pqsignal_SIGINT
                 :: connectDatabase cparams (get_progname argv0)
                 :: body ++ [PQfinish (Some c); pg_free_opts]) - 1
            <=? List.length
                  (pqsignal_SIGINT
                     :: connectDatabase cparams (get_progname argv0)
                     :: body ++ [PQfinish (Some c); pg_free_opts]))%nat)
    with true by (symmetry; apply Nat.leb_le; lia).
  eexists. split; [reflexivity |].
  unfold conn_after, before. simpl. rewrite Hc.
  unfold PQfinish_count in *.
  cbn [filter is_PQfinish_of].
  rewrite !filter_app, !length_app. simpl.
  rewrite Nat.eqb_refl. simpl.
  split; [lia | reflexivity].
Qed.

(** ** Further properties of option parsing *)

(** When the switch returns, the option was an action option: its action
    is stored, and the connection and version fields are left alone. *)
Lemma get_opts_switch_returns (progname : string) (c : ascii)
      (oa : option string) (opts opts' : options) (t : list event) :
  get_opts_switch progname c oa opts = (t, Ret opts') ->
  t = [] /\ action opts' = action_of_option c
  /\ dsn opts' = dsn opts /\ major opts' = major opts
  /\ minor opts' = minor opts.
Proof.
  unfold get_opts_switch, action_of_option.
  destruct (Ascii.eqb c "a").
  { destruct oa as [h |]; simpl; intros H; inversion H; subst; simpl; auto. }
  destruct (Ascii.eqb c "j"); [intros H; inversion H; subst; simpl; auto |].
  destruct (Ascii.eqb c "m"); [intros H; inversion H; subst; simpl; auto |].
  destruct (Ascii.eqb c "s"); [intros H; inversion H; subst; simpl; auto |].
  discriminate.
Qed.

Lemma run_switch_cons_returns (progname : string) (r : Getopt.answer)
      (l : list Getopt.answer) (opts opts' : options) (t : list event) :
  run_switch progname (r :: l) opts = (t, Ret opts') ->
  exists o1 t1,
    get_opts_switch progname (fst r) (snd r) opts = ([], Ret o1)
    /\ run_switch progname l o1 = (t1, Ret opts').
Proof.
  destruct r as [c oa]. simpl run_switch. intros H.
  apply bind_returns in H as (ta & [] & tb & _ & H & _).
  apply bind_returns in H as (tc & o1 & td & Hsw & Hrun & _).
  destruct (get_opts_switch_returns _ _ _ _ _ _ Hsw) as (-> & _).
  exists o1, td. auto.
Qed.

Lemma run_switch_keeps_fields (progname : string) (l : list Getopt.answer)
      (opts opts' : options) (t : list event) :
  run_switch progname l opts = (t, Ret opts') ->
  dsn opts' = dsn opts /\ major opts' = major opts
  /\ minor opts' = minor opts.
Proof.
  revert opts t. induction l as [| r l IH]; intros opts t H.
  - inversion H; subst. auto.
  - apply run_switch_cons_returns in H as (o1 & t1 & Hsw & Hrun).
    destruct (get_opts_switch_returns _ _ _ _ _ _ Hsw)
      as (_ & _ & Hd & Hma & Hmi).
    destruct (IH _ _ Hrun) as (Hd' & Hma' & Hmi').
    repeat split; congruence.
Qed.

Lemma run_switch_last (progname : string) (l : list Getopt.answer)
      (opts opts' : options) (t : list event) (d : Getopt.answer) :
  run_switch progname l opts = (t, Ret opts') -> l <> [] ->
  action opts' = action_of_option (fst (last l d)).
Proof.
  revert opts t. induction l as [| r l IH]; intros opts t H Hne;
    [congruence |].
  apply run_switch_cons_returns in H as (o1 & t1 & Hsw & Hrun).
  destruct l as [| r' l'].
  - inversion Hrun; subst.
    destruct (get_opts_switch_returns _ _ _ _ _ _ Hsw) as (_ & Ha & _).
    exact Ha.
  - change (last (r :: r' :: l') d) with (last (r' :: l') d).
    eapply IH; [eassumption | discriminate].
Qed.

Lemma get_opts_parsed (w : world) (g : options) (argv0 : string)
      (args : list string) :
  info_first (argv0 :: args) = false ->
  forallb action_answer (scanned w (argv0 :: args)) = true ->
  exists opts, get_opts w (argv0 :: args) g = ([], Ret opts).
Proof.
  intros Hinfo Hall. rewrite get_opts_scan by assumption.
  destruct (run_switch_actions (get_progname argv0)
              (scanned w (argv0 :: args))
              (set_verbose false (set_script None g))
              (answers_well_formed _ _ _) Hall) as (o & Hrun & _).
  eauto.
Qed.

Lemma get_opts_rejected (w : world) (g : options) (argv0 : string)
      (args : list string) :
  info_first (argv0 :: args) = false ->
  forallb action_answer (scanned w (argv0 :: args)) = false ->
  get_opts w (argv0 :: args) g
  = (complaint (scanned w (argv0 :: args))
       ++ [pg_log_error (usage_hint (get_progname argv0))],
     Exit EXIT_FAILURE).
Proof.
  intros Hinfo Hall. rewrite get_opts_scan by assumption.
  apply run_switch_other; [apply answers_well_formed | assumption].
Qed.

(** Option parsing returns exactly when the first argument is not a help
    or version flag and every option that [getopt] reports is one of
    [a], [j], [m], [s]; it has then written nothing. *)
Theorem get_opts_returns_iff (w : world) (g : options) (argv0 : string)
        (args : list string) :
  (exists opts, get_opts w (argv0 :: args) g = ([], Ret opts))
  <-> (info_first (argv0 :: args) = false
       /\ forallb action_answer (scanned w (argv0 :: args)) = true).
Proof.
  split.
  - intros [opts H].
    destruct (get_opts_returns _ _ _ _ _ H) as (Hinfo & _ & Hall & _).
    auto.
  - intros [Hinfo Hall]. apply get_opts_parsed; assumption.
Qed.

Lemma run_action_starts_with_connect (w : world) (progname : string)
      (opts : options) :
  exists t,
    trace (run_action w progname opts)
    = connectDatabase cparams progname :: t.
Proof.
  unfold run_action, connect.
  destruct (connectDatabase_result w) as [c |]; [| eexists; reflexivity].
  cbn [bind emit ret app].
  match goal with
  | |- exists t, trace (let (t', r) := ?body in _) = _ =>
      destruct body as [tb rb]
  end.
  eexists; reflexivity.
Qed.

(** The connection is attempted exactly in that case: a help or version
    flag in first position, or any option outside [a], [j], [m], [s], ends
    the run before [connectDatabase]. *)
Theorem connection_attempted_iff_parsed (w : world) (g : options)
        (argv0 : string) (args : list string) :
  existsb is_connectDatabase (trace (main w g (argv0 :: args)))
  = negb (info_first (argv0 :: args))
    && forallb action_answer (scanned w (argv0 :: args)).
Proof.
  destruct (info_first (argv0 :: args)) eqn:Hinfo.
  - rewrite (main_get_opts_exits _ _ _ _ _ _ (get_opts_info w _ g Hinfo)).
    reflexivity.
  - destruct (forallb action_answer (scanned w (argv0 :: args))) eqn:Hall.
    + destruct (get_opts_parsed w g argv0 args Hinfo Hall) as [o Ho].
      rewrite (main_get_opts_returns _ _ _ _ _ Ho).
      destruct (run_action_starts_with_connect w (get_progname argv0) o)
        as [t Ht].
      cbn [trace fst]. fold (trace (run_action w (get_progname argv0) o)).
      rewrite Ht. reflexivity.
    + rewrite (main_get_opts_exits _ _ _ _ _ _
                 (get_opts_rejected w g argv0 args Hinfo Hall)). simpl.
      rewrite existsb_app, complaint_no_connection. reflexivity.
Qed.

(** When several action options are given, the last one decides: after
    parsing, [action] is the value that the switch stores for the last
    option that [getopt] reported. *)
Theorem last_action_option_wins (w : world) (g opts : options)
        (argv : list string) (t : list event) (d : Getopt.answer) :
  get_opts w argv g = (t, Ret opts) ->
  scanned w argv <> [] ->
  action opts = action_of_option (fst (last (scanned w argv) d)).
Proof.
  intros H Hne.
  destruct (get_opts_returns _ _ _ _ _ H) as (Hinfo & _).
  destruct argv as [| argv0 args]; [discriminate |].
  rewrite get_opts_scan in H by assumption.
  eapply run_switch_last; eassumption.
Qed.

Lemma last_action_option_wins_witness :
  let argv := ["clientcomptage"; "-j"; "-a"; "'08:00', '12:00'"; "-sm"] in
  scanned Sample.up argv <> []
  /\ forall opts t,
       get_opts Sample.up argv Sample.zeroed = (t, Ret opts) ->
       action opts = enum_value MOIS.
Proof.
  cbv zeta. split; [discriminate |].
  intros opts t H.
  apply (last_action_option_wins Sample.up Sample.zeroed opts
           ["clientcomptage"; "-j"; "-a"; "'08:00', '12:00'"; "-sm"] t
           ("?"%char, None) H).
  discriminate.
Defined.

(** ** The version check *)

(** No option assigns [dsn], [major] or [minor]: whatever the command
    line, when parsing returns they hold what the allocator left, and so
    [backend_minimum_version] answers from that content alone. *)
Theorem version_fields_never_assigned (w : world) (g opts : options)
        (argv : list string) (t : list event) (maj min : Z) :
  get_opts w argv g = (t, Ret opts) ->
  dsn opts = dsn g /\ major opts = major g /\ minor opts = minor g
  /\ backend_minimum_version opts maj min
     = backend_minimum_version g maj min.
Proof.
  intros H.
  destruct (get_opts_returns _ _ _ _ _ H) as (Hinfo & _).
  destruct argv as [| argv0 args]; [discriminate |].
  rewrite get_opts_scan in H by assumption.
  destruct (run_switch_keeps_fields _ _ _ _ _ H) as (Hd & Hma & Hmi).
  simpl in Hd, Hma, Hmi. unfold backend_minimum_version.
  rewrite Hma, Hmi. auto.
Qed.

Lemma version_fields_never_assigned_witness :
  let g := mk_options None false 0 None (Some "service=x") 14 2 in
  let argv := ["clientcomptage"; "-m"] in
  get_opts Sample.up argv g
  = ([], Ret (mk_options None false (enum_value MOIS) None
                         (Some "service=x") 14 2))
  /\ backend_minimum_version
       (mk_options None false (enum_value MOIS) None (Some "service=x") 14 2)
       9 6
     = backend_minimum_version
         (mk_options None false 0 None (Some "service=x") 14 2) 9 6.
Proof.
  cbv zeta. split; [reflexivity |].
  apply (version_fields_never_assigned Sample.up
           (mk_options None false 0 None (Some "service=x") 14 2)
           (mk_options None false (enum_value MOIS) None
                       (Some "service=x") 14 2)
           ["clientcomptage"; "-m"] [] 9 6).
  reflexivity.
Defined.

Lemma backend_minimum_version_spec (opts : options) (maj min : Z) :
  backend_minimum_version opts maj min = true
  <-> version_le maj min (major opts) (minor opts).
Proof.
  unfold backend_minimum_version, version_le.
  rewrite orb_true_iff, andb_true_iff, Z.gtb_ltb, Z.geb_leb,
    Z.ltb_lt, Z.eqb_eq, Z.leb_le.
  intuition lia.
Qed.

(** [backend_minimum_version] holds for the version kept in the options
    and is downward closed: a backend that is at least some version is at
    least every lower one. *)
Theorem backend_minimum_version_downward (opts : options)
        (maj min maj' min' : Z) :
  backend_minimum_version opts maj min = true ->
  version_le maj' min' maj min ->
  backend_minimum_version opts maj' min' = true
  /\ backend_minimum_version opts (major opts) (minor opts) = true.
Proof.
  rewrite !backend_minimum_version_spec. unfold version_le.
  intros H1 H2. split; lia.
Qed.

Lemma backend_minimum_version_downward_witness :
  let opts := mk_options None false 0 None None 14 2 in
  backend_minimum_version opts 14 0 = true
  /\ version_le 9 6 14 0
  /\ backend_minimum_version opts 9 6 = true.
Proof.
  cbv zeta. split; [reflexivity |]. split; [left; lia |].
  apply (backend_minimum_version_downward
           (mk_options None false 0 None None 14 2) 14 0 9 6).
  - reflexivity.
  - left; lia.
Defined.

(** The check is strict on the major number first: a backend of a lower
    major is refused whatever the minors, and with equal majors the minors
    decide. *)
Theorem backend_minimum_version_refuses (opts : options) (maj min : Z) :
  backend_minimum_version opts maj min = false
  <-> ((major opts < maj)%Z
       \/ (major opts = maj /\ (minor opts < min)%Z)).
Proof.
  rewrite <- not_true_iff_false, backend_minimum_version_spec.
  unfold version_le. lia.
Qed.

(** ** The allocation wrapper *)

(** [pg_malloc] never hands back NULL and never asks [malloc] for zero
    bytes: it consults [malloc] at [max 1 size] only, and either returns
    the block obtained there without writing anything, or logs the
    out-of-memory message and exits with [EXIT_FAILURE]. *)
Theorem pg_malloc_contract {block : Type} (malloc : nat -> option block)
        (size : nat) :
  ((exists b, malloc (Nat.max 1 size) = Some b
              /\ pg_malloc malloc size = ([], Ret b))
   \/ (malloc (Nat.max 1 size) = None
       /\ pg_malloc malloc size
          = ([pg_log_error ("out of memory (pg_malloc)" ++ nl)],
             Exit EXIT_FAILURE)))
  /\ (forall malloc' : nat -> option block,
        malloc' (Nat.max 1 size) = malloc (Nat.max 1 size) ->
        pg_malloc malloc' size = pg_malloc malloc size).
Proof.
  assert (Hsize : (if (size =? 0)%nat then 1 else size) = Nat.max 1 size).
  { destruct size as [| n]; [reflexivity |]. simpl. destruct n; reflexivity. }
  unfold pg_malloc. rewrite Hsize. split.
  - destruct (malloc (Nat.max 1 size)) as [b |]; [left | right]; eauto.
  - intros malloc' ->. reflexivity.
Qed.

(** ** What every run keeps *)

(** The ways [main] can go. *)
Lemma main_cases (w : world) (g : options) (argv : list string) :
  main w g argv = ([pqsignal_SIGINT], Undefined)
  \/ (info_first argv = true
      /\ main w g argv
         = ([pqsignal_SIGINT; stdout (info_text w argv)], Exit 0%Z))
  \/ (exists argv0 args,
        argv = argv0 :: args /\ info_first argv = false
        /\ main w g argv
           = (pqsignal_SIGINT :: complaint (scanned w argv)
                ++ [pg_log_error (usage_hint (get_progname argv0))],
              Exit EXIT_FAILURE))
  \/ (exists argv0 args opts,
        argv = argv0 :: args /\ info_first argv = false
        /\ get_opts w argv g = ([], Ret opts) /\ script opts = None
        /\ main w g argv
           = (pqsignal_SIGINT
                :: trace (run_action w (get_progname argv0) opts),
              result (run_action w (get_progname argv0) opts))).
Proof.
  destruct argv as [| argv0 args]; [left; reflexivity | right].
  destruct (info_first (argv0 :: args)) eqn:Hinfo.
  { left. split; [reflexivity |].
    apply main_get_opts_exits, get_opts_info, Hinfo. }
  right.
  destruct (forallb action_answer (scanned w (argv0 :: args))) eqn:Hall.
  - right. destruct (get_opts_parsed w g argv0 args Hinfo Hall) as [o Ho].
    destruct (get_opts_returns _ _ _ _ _ Ho) as (_ & _ & _ & Hs & _).
    exists argv0, args, o. repeat split; auto.
    apply main_get_opts_returns, Ho.
  - left. exists argv0, args. repeat split.
    apply main_get_opts_exits, get_opts_rejected; assumption.
Qed.

Ltac run_action_cases w o :=
  unfold run_action, connect, execute, fetch_table, fetch_failed;
  destruct (connectDatabase_result w) as [?c |];
  cbn [bind emit ret app];
  repeat match goal with
         | |- context [(action o =? ?v)%Z] => destruct (action o =? v)%Z
         end;
  destruct (script o); try destruct (heures o);
  repeat match goal with
         | |- context [PQexec_result w ?c ?q] =>
             destruct (PQexec_result w c q)
         | |- context [(2 <? ?x)%Z] => destruct (2 <? x)%Z
         end.

(** What the part of [main] that follows option parsing keeps, on every
    path. *)
Lemma run_action_invariants (w : world) (progname : string)
      (opts : options) :
  (result (run_action w progname opts) = Ret 0%Z
   \/ result (run_action w progname opts) = Exit 1%Z
   \/ result (run_action w progname opts) = Undefined)
  /\ occurrences is_PQexec (trace (run_action w progname opts)) <= 1
  /\ occurrences is_PQclear (trace (run_action w progname opts))
     = occurrences is_PQexec (trace (run_action w progname opts))
  /\ (script opts = None ->
      stdout_of (trace (run_action w progname opts)) = [])
  /\ (connectDatabase_result w = None ->
      filter is_PQfinish (trace (run_action w progname opts)) = [])
  /\ (forall c, connectDatabase_result w = Some c ->
        result (run_action w progname opts) <> Undefined ->
        filter is_PQfinish (trace (run_action w progname opts))
        = [PQfinish (Some c)]).
Proof.
  run_action_cases w opts;
    cbn [bind emit ret app exit undefined result trace fst snd];
    (split; [auto |]);
    (split; [cbv; lia |]);
    (split; [reflexivity |]);
    (split; [intros Hs; try discriminate Hs; reflexivity |]);
    (split; [intros Hc; try discriminate Hc; reflexivity |]);
    intros c' Hc Hu; try discriminate Hc; try (exfalso; apply Hu; reflexivity);
    inversion Hc; subst; reflexivity.
Qed.

(** The exit status is 0 or [EXIT_FAILURE] and nothing else, unless the
    run is undefined (no [argv[0]], or an insertion that reads the
    uninitialized [heures]). *)
Theorem main_exit_status (w : world) (g : options) (argv : list string) :
  exit_status (main w g argv) = Some 0%Z
  \/ exit_status (main w g argv) = Some EXIT_FAILURE
  \/ result (main w g argv) = Undefined.
Proof.
  destruct (main_cases w g argv)
    as [H | [[_ H] | [(a0 & args & _ & _ & H)
                     | (a0 & args & o & _ & _ & _ & _ & H)]]];
    rewrite H; unfold exit_status; cbn [result snd]; auto.
  destruct (run_action_invariants w (get_progname a0) o)
    as ([Hr | [Hr | Hr]] & _); rewrite Hr; auto.
Qed.

(** One round trip at most: a run calls [PQexec] at most once, and clears
    what [PQexec] returned exactly as many times, on the success and on
    the failure paths alike. *)
Theorem one_query_cleared_once (w : world) (g : options)
        (argv : list string) :
  occurrences is_PQexec (trace (main w g argv)) <= 1
  /\ occurrences is_PQclear (trace (main w g argv))
     = occurrences is_PQexec (trace (main w g argv)).
Proof.
  assert (Hquiet : forall l,
             occurrences is_PQexec (complaint l) = 0
             /\ occurrences is_PQclear (complaint l) = 0).
  { induction l as [| r l IH]; simpl; [auto |].
    destruct (action_answer r); [exact IH |].
    destruct (Getopt.complains r); auto. }
  destruct (main_cases w g argv)
    as [H | [[_ H] | [(a0 & args & _ & _ & H)
                     | (a0 & args & o & _ & _ & _ & _ & H)]]];
    rewrite H; cbn [trace fst].
  - split; [cbv; lia | reflexivity].
  - split; [cbv; lia | reflexivity].
  - destruct (Hquiet (scanned w argv)) as [He Hc].
    unfold occurrences in *. cbn [filter is_PQexec is_PQclear].
    rewrite !filter_app, !length_app, He, Hc. simpl. lia.
  - destruct (run_action_invariants w (get_progname a0) o)
      as (_ & Hle & Heq & _).
    unfold occurrences in *. cbn [filter is_PQexec is_PQclear].
    split; assumption.
Qed.

(** The connection is closed exactly once, on the handle that
    [connectDatabase] returned, in every run that opened it and is
    defined: at the end of [main], or in the error path of [execute] or
    [fetch_table] before [exit]. *)
Theorem connection_closed_exactly_once (w : world) (g : options)
        (argv : list string) (c : PGconn) :
  connectDatabase_result w = Some c ->
  existsb is_connectDatabase (trace (main w g argv)) = true ->
  result (main w g argv) <> Undefined ->
  filter is_PQfinish (trace (main w g argv)) = [PQfinish (Some c)].
Proof.
  intros Hc.
  destruct (main_cases w g argv)
    as [H | [[_ H] | [(a0 & args & _ & _ & H)
                     | (a0 & args & o & _ & _ & _ & _ & H)]]];
    rewrite H; cbn [trace result fst snd].
  - intros _ Hu. contradiction Hu. reflexivity.
  - discriminate.
  - simpl. rewrite existsb_app, complaint_no_connection. discriminate.
  - intros _ Hu.
    destruct (run_action_invariants w (get_progname a0) o)
      as (_ & _ & _ & _ & _ & Hfin).
    cbn [filter is_PQfinish]. apply Hfin; assumption.
Qed.

Lemma connection_closed_exactly_once_witness :
  let argv := ["clientcomptage"; "-a"; "now(), now()"] in
  existsb is_connectDatabase (trace (main Sample.rejecting Sample.dirty argv))
  = true
  /\ filter is_PQfinish (trace (main Sample.rejecting Sample.dirty argv))
     = [PQfinish (Some 1)].
Proof.
  cbv zeta. split; [reflexivity |].
  apply (connection_closed_exactly_once Sample.rejecting Sample.dirty
           ["clientcomptage"; "-a"; "now(), now()"] 1).
  - reflexivity.
  - reflexivity.
  - discriminate.
Defined.

(** [PQfinish] is never called when there is nothing to close: not in a
    run that stops before the connection (help, version, usage error), and
    not when [connectDatabase] fails. *)
Theorem nothing_closed_without_connection (w : world) (g : options)
        (argv : list string) :
  connectDatabase_result w = None
  \/ existsb is_connectDatabase (trace (main w g argv)) = false ->
  filter is_PQfinish (trace (main w g argv)) = [].
Proof.
  assert (Hquiet : forall l, filter is_PQfinish (complaint l) = []).
  { induction l as [| r l IH]; simpl; [auto |].
    destruct (action_answer r); [exact IH |].
    destruct (Getopt.complains r); auto. }
  destruct (main_cases w g argv)
    as [H | [[_ H] | [(a0 & args & _ & _ & H)
                     | (a0 & args & o & _ & _ & _ & _ & H)]]];
    rewrite H; cbn [trace fst]; intros Hno.
  - reflexivity.
  - reflexivity.
  - cbn [filter is_PQfinish]. rewrite filter_app, Hquiet. reflexivity.
  - cbn [filter is_PQfinish].
    destruct (run_action_invariants w (get_progname a0) o)
      as (_ & _ & _ & _ & Hnone & _).
    destruct Hno as [Hno | Hno]; [apply Hnone, Hno |].
    destruct (run_action_starts_with_connect w (get_progname a0) o)
      as [t Ht].
    fold (trace (run_action w (get_progname a0) o)) in Hno.
    rewrite Ht in Hno. discriminate.
Qed.

Lemma nothing_closed_without_connection_witness :
  let down := mk_world false "14.2" None (fun _ _ => None)
                       "could not connect to server" in
  connectDatabase_result down = None
  /\ main down Sample.zeroed ["clientcomptage"; "-s"]
     = ([pqsignal_SIGINT; connectDatabase cparams "clientcomptage";
         pg_log_error "could not connect to server"], Exit 1%Z)
  /\ filter is_PQfinish (trace (main down Sample.zeroed ["clientcomptage"; "-s"]))
     = [].
Proof.
  cbv zeta. split; [reflexivity |]. split; [reflexivity |].
  apply (nothing_closed_without_connection
           (mk_world false "14.2" None (fun _ _ => None)
                     "could not connect to server")
           Sample.zeroed ["clientcomptage"; "-s"]).
  left. reflexivity.
Defined.

(** Apart from the help and version texts, the program itself writes
    nothing to standard output: what a report shows goes through
    [printQuery], and the script branches are never taken. *)
Theorem no_stdout_unless_info (w : world) (g : options)
        (argv : list string) :
  info_first argv = false ->
  stdout_of (trace (main w g argv)) = [].
Proof.
  assert (Hquiet : forall l, stdout_of (complaint l) = []).
  { induction l as [| r l IH]; simpl; [auto |].
    destruct (action_answer r); [exact IH |].
    destruct (Getopt.complains r); auto. }
  assert (Happ : forall t1 t2, stdout_of (t1 ++ t2)
                               = (stdout_of t1 ++ stdout_of t2)%list).
  { induction t1 as [| e t1 IH]; intros t2; simpl; [reflexivity |].
    destruct e; simpl; rewrite ?IH; reflexivity. }
  intros Hinfo.
  destruct (main_cases w g argv)
    as [H | [[Hi H] | [(a0 & args & _ & _ & H)
                      | (a0 & args & o & _ & _ & _ & Hs & H)]]];
    rewrite H; cbn [trace fst].
  - reflexivity.
  - congruence.
  - cbn [stdout_of]. rewrite Happ, Hquiet. reflexivity.
  - cbn [stdout_of].
    destruct (run_action_invariants w (get_progname a0) o)
      as (_ & _ & _ & Hout & _).
    apply Hout, Hs.
Qed.

Lemma no_stdout_unless_info_witness :
  info_first ["clientcomptage"; "-j"] = false
  /\ stdout_of (trace (main Sample.up Sample.dirty ["clientcomptage"; "-j"]))
     = [].
Proof.
  split; [reflexivity |].
  apply (no_stdout_unless_info Sample.up Sample.dirty
           ["clientcomptage"; "-j"]).
  reflexivity.
Defined.

(** ** The insertion statement *)

Section Strings.

Lemma length_append (s1 s2 : string) :
  String.length (s1 ++ s2) = String.length s1 + String.length s2.
Proof. induction s1 as [| c s1 IH]; simpl; [reflexivity | now rewrite IH]. Qed.

Lemma substring_0_length (m : nat) (s : string) :
  String.length (substring 0 m s) = Nat.min m (String.length s).
Proof.
  revert s. induction m as [| m IH]; intros [| c s]; simpl; try reflexivity.
  now rewrite IH.
Qed.

Lemma substring_0_all (m : nat) (s : string) :
  String.length s <= m -> substring 0 m s = s.
Proof.
  revert s. induction m as [| m IH]; intros [| c s]; simpl; intros H;
    try reflexivity; try lia.
  rewrite IH by lia. reflexivity.
Qed.

Lemma substring_0_append (s1 s2 : string) (m : nat) :
  substring 0 (String.length s1 + m) (s1 ++ s2) = (s1 ++ substring 0 m s2)%string.
Proof. induction s1 as [| c s1 IH]; simpl; [reflexivity | now rewrite IH]. Qed.

Lemma substring_0_append_left (m : nat) (s1 s2 : string) :
  m <= String.length s1 -> substring 0 m (s1 ++ s2) = substring 0 m s1.
Proof.
  revert s1. induction m as [| m IH]; intros [| c s1]; simpl; intros H;
    try reflexivity; try lia.
  - destruct s2; reflexivity.
  - rewrite IH by lia. reflexivity.
Qed.

End Strings.

Lemma insert_sql_unfold (h : string) :
  insert_sql h
  = substring 0 (String.length insert_prefix + 2001)
              (insert_prefix ++ (h ++ ")")).
Proof. reflexivity. Qed.

(** The statement always fits the buffer of [main]: it is never longer
    than 2047 bytes, the terminator taking the last one; its length is the
    full length of the formatted text or that bound. *)
Theorem insert_sql_fits_buffer (h : string) :
  String.length (insert_sql h)
  = Nat.min (CLIENTCOMPTAGE_DEFAULT_STRING_SIZE - 1) (String.length h + 47)
  /\ String.length (insert_sql h) < CLIENTCOMPTAGE_DEFAULT_STRING_SIZE.
Proof.
  assert (Hlen : String.length (insert_sql h)
                 = Nat.min (CLIENTCOMPTAGE_DEFAULT_STRING_SIZE - 1)
                           (String.length h + 47)).
  { unfold insert_sql, snprintf.
    rewrite substring_0_length, !length_append.
    change (String.length
              "INSERT INTO public.comptage (deb,fin) VALUES (") with 46.
    change (String.length ")") with 1.
    f_equal. lia. }
  split; [exact Hlen |].
  rewrite Hlen. apply Nat.le_lt_trans with (CLIENTCOMPTAGE_DEFAULT_STRING_SIZE - 1).
  - apply Nat.le_min_l.
  - unfold CLIENTCOMPTAGE_DEFAULT_STRING_SIZE. lia.
Qed.

(** A payload of at most 2000 bytes is copied into the statement as it is,
    between the fixed text and the closing parenthesis. *)
Theorem insert_sql_verbatim (h : string) :
  String.length h <= 2000 ->
  insert_sql h = (insert_prefix ++ h ++ ")")%string.
Proof.
  intros H. unfold insert_sql, snprintf. apply substring_0_all.
  rewrite !length_append.
  change (String.length insert_prefix) with 46.
  change (String.length ")") with 1.
  unfold CLIENTCOMPTAGE_DEFAULT_STRING_SIZE. lia.
Qed.

Lemma insert_sql_verbatim_witness :
  String.length "'2022-01-01 08:00', '2022-01-01 12:00'" <= 2000
  /\ insert_sql "'2022-01-01 08:00', '2022-01-01 12:00'"
     = "INSERT INTO public.comptage (deb,fin) VALUES ('2022-01-01 08:00', '2022-01-01 12:00')".
Proof.
  split; [simpl; lia |].
  apply (insert_sql_verbatim "'2022-01-01 08:00', '2022-01-01 12:00'").
  simpl; lia.
Defined.

(** A longer payload is cut without notice: the statement keeps the first
    2001 bytes of the payload and loses the closing parenthesis. *)
Theorem insert_sql_truncates (h : string) :
  2000 < String.length h ->
  insert_sql h = (insert_prefix ++ substring 0 2001 h)%string.
Proof.
  intros H. rewrite insert_sql_unfold, substring_0_append.
  rewrite substring_0_append_left by lia. reflexivity.
Qed.

Lemma insert_sql_truncates_witness :
  2000 < String.length (string_of_list_ascii (repeat "x"%char 2001))
  /\ insert_sql (string_of_list_ascii (repeat "x"%char 2001))
     = (insert_prefix
          ++ substring 0 2001 (string_of_list_ascii (repeat "x"%char 2001)))%string.
Proof.
  split; [apply Nat.ltb_lt; vm_compute; reflexivity |].
  apply (insert_sql_truncates (string_of_list_ascii (repeat "x"%char 2001))).
  apply Nat.ltb_lt; vm_compute; reflexivity.
Defined.

(** [-a] takes the next argument as it is, whatever it looks like, and the
    statement built from it is what reaches [PQexec]; any result that is
    not NULL, whatever its status, ends the run silently with status 0. *)
Theorem insert_submits_payload (w : world) (g : options)
        (argv0 payload : string) (c : PGconn) (r : PGresult) :
  connectDatabase_result w = Some c ->
  PQexec_result w c (insert_sql payload) = Some r ->
  main w g [argv0; "-a"; payload]
  = ([pqsignal_SIGINT;
      connectDatabase cparams (get_progname argv0);
      PQexec c (insert_sql payload);
      PQclear (Some r);
      PQfinish (Some c); pg_free_opts], Ret 0%Z).
Proof.
  intros Hc Hq.
  assert (Hopts : get_opts w [argv0; "-a"; payload] g
                  = ([], Ret (set_heures payload
                                (set_action AJOUT
                                   (set_verbose false (set_script None g)))))).
  { rewrite get_opts_scan by reflexivity.
    unfold scanned. destruct (POSIXLY_CORRECT w); reflexivity. }
  rewrite (main_get_opts_returns _ _ _ _ _ Hopts).
  unfold run_action, connect. rewrite Hc.
  cbn [bind emit ret app action set_heures set_action heures].
  change (enum_value AJOUT =? enum_value AJOUT)%Z with true.
  cbv iota.
  rewrite (execute_result w c _ _ r) by (reflexivity || assumption).
  reflexivity.
Qed.

Lemma insert_submits_payload_witness :
  main Sample.up Sample.dirty ["clientcomptage"; "-a"; "--help"]
  = ([pqsignal_SIGINT;
      connectDatabase cparams "clientcomptage";
      PQexec 1 "INSERT INTO public.comptage (deb,fin) VALUES (--help)";
      PQclear (Some Sample.tuples_ok);
      PQfinish (Some 1); pg_free_opts], Ret 0%Z).
Proof.
  apply (insert_submits_payload Sample.up Sample.dirty "clientcomptage"
           "--help" 1 Sample.tuples_ok).
  - reflexivity.
  - reflexivity.
Defined.

(** In script mode the insertion is written to standard output as one
    statement ended by a semicolon, and not executed; the connection is
    opened and closed all the same. *)
Theorem script_mode_insert (w : world) (progname : string)
        (opts : options) (h : string) (c : PGconn) :
  script opts <> None ->
  action opts = enum_value AJOUT -> heures opts = Some h ->
  connectDatabase_result w = Some c ->
  run_action w progname opts
  = ([connectDatabase cparams progname;
      stdout (insert_sql h ++ ";" ++ nl);
      PQfinish (Some c); pg_free_opts], Ret 0%Z).
Proof.
  intros Hs Ha Hh Hc. unfold run_action, connect, execute.
  rewrite Hc, Ha, Hh.
  destruct (script opts); [reflexivity | contradiction].
Qed.

Lemma script_mode_insert_witness :
  let opts := mk_options (Some "out.sql") false (enum_value AJOUT)
                (Some "2022-01-01 08:00, 2022-01-01 12:00") None 0 0 in
  script opts <> None
  /\ run_action Sample.up "clientcomptage" opts
     = ([connectDatabase cparams "clientcomptage";
         stdout ("INSERT INTO public.comptage (deb,fin) VALUES (2022-01-01 08:00, 2022-01-01 12:00);"
                 ++ nl);
         PQfinish (Some 1); pg_free_opts], Ret 0%Z).
Proof.
  cbv zeta. split; [discriminate |].
  apply (script_mode_insert Sample.up "clientcomptage"
           (mk_options (Some "out.sql") false (enum_value AJOUT)
              (Some "2022-01-01 08:00, 2022-01-01 12:00") None 0 0)
           "2022-01-01 08:00, 2022-01-01 12:00" 1).
  - discriminate.
  - reflexivity.
  - reflexivity.
  - reflexivity.
Defined.

(** ** The reports *)

Lemma report_option_parsed (w : world) (g : options) (argv0 flag : string)
      (label query : string) :
  report_option flag = Some (label, query) ->
  exists a,
    report_of a = Some (label, query)
    /\ (a = JOURS \/ a = MOIS \/ a = SEMAINES)
    /\ get_opts w [argv0; flag] g
       = ([], Ret (set_action a (set_verbose false (set_script None g)))).
Proof.
  unfold report_option, streq.
  destruct (String.eqb_spec flag "-j") as [-> | _];
    [| destruct (String.eqb_spec flag "-m") as [-> | _];
       [| destruct (String.eqb_spec flag "-s") as [-> | _];
          [| discriminate]]];
    intros H;
    [exists JOURS | exists MOIS | exists SEMAINES];
    (split; [exact H |]); (split; [auto |]);
    rewrite get_opts_scan by reflexivity;
    unfold scanned; destruct (POSIXLY_CORRECT w); reflexivity.
Qed.

(** A report option alone, with the connection established and a result
    whose status is at most PGRES_TUPLES_OK: the fixed query of the option
    is run once, its result is printed once by [printQuery] under the
    label of the option and with the fixed print options, then cleared;
    the connection is closed and the status is 0. *)
Theorem report_prints_table (w : world) (g : options)
        (argv0 flag label query : string) (c : PGconn) (r : PGresult) :
  report_option flag = Some (label, query) ->
  connectDatabase_result w = Some c ->
  PQexec_result w c query = Some r ->
  (resultStatus r <= PGRES_TUPLES_OK)%Z ->
  main w g [argv0; flag]
  = ([pqsignal_SIGINT;
      connectDatabase cparams (get_progname argv0);
      PQexec c query;
      printQuery (myopt label) r;
      PQclear (Some r);
      PQfinish (Some c); pg_free_opts], Ret 0%Z).
Proof.
  intros Hflag Hc Hq Hst.
  destruct (report_option_parsed w g argv0 flag label query Hflag)
    as (a & Hrep & Ha & Hopts).
  rewrite (main_get_opts_returns _ _ _ _ _ Hopts).
  assert (Hok : (2 <? resultStatus r)%Z = false)
    by (apply Z.ltb_ge; exact Hst).
  unfold run_action, connect. rewrite Hc.
  cbn [bind emit ret app].
  destruct Ha as [-> | [-> | ->]]; simpl in Hrep; inversion Hrep; subst;
    unfold fetch_table, fetch_failed; cbn [script set_action set_verbose
                                           set_script action];
    simpl Z.eqb; cbv iota zeta; rewrite Hq, Hok; reflexivity.
Qed.

Lemma report_prints_table_witness :
  main Sample.up Sample.dirty ["/usr/local/bin/clientcomptage"; "-s"]
  = ([pqsignal_SIGINT;
      connectDatabase cparams "clientcomptage";
      PQexec 1 "SELECT * FROM public.semaines";
      printQuery (myopt "Semaines") Sample.tuples_ok;
      PQclear (Some Sample.tuples_ok);
      PQfinish (Some 1); pg_free_opts], Ret 0%Z).
Proof.
  apply (report_prints_table Sample.up Sample.dirty
           "/usr/local/bin/clientcomptage" "-s"
           "Semaines" "SELECT * FROM public.semaines" 1 Sample.tuples_ok).
  - reflexivity.
  - reflexivity.
  - reflexivity.
  - discriminate.
Defined.

(** The same, when [PQexec] returns NULL or a result whose status is above
    PGRES_TUPLES_OK: nothing is printed; the error and the query are
    logged, the result is cleared, the connection is closed and the status
    is [EXIT_FAILURE]. *)
Theorem report_query_failure (w : world) (g : options)
        (argv0 flag label query : string) (c : PGconn) :
  report_option flag = Some (label, query) ->
  connectDatabase_result w = Some c ->
  fetch_failed (PQexec_result w c query) = true ->
  main w g [argv0; flag]
  = ([pqsignal_SIGINT;
      connectDatabase cparams (get_progname argv0);
      PQexec c query;
      pg_log_error ("query failed: " ++ PQerrorMessage w);
      pg_log_info ("query was: " ++ query);
      PQclear (PQexec_result w c query);
      PQfinish (Some c)], Exit EXIT_FAILURE).
Proof.
  intros Hflag Hc Hfail.
  destruct (report_option_parsed w g argv0 flag label query Hflag)
    as (a & Hrep & Ha & Hopts).
  rewrite (main_get_opts_returns _ _ _ _ _ Hopts).
  unfold run_action, connect. rewrite Hc.
  cbn [bind emit ret app].
  destruct Ha as [-> | [-> | ->]]; simpl in Hrep; inversion Hrep; subst;
    unfold fetch_table; cbn [script set_action set_verbose
                             set_script action];
    simpl Z.eqb; cbv iota zeta; rewrite Hfail; reflexivity.
Qed.

Lemma report_query_failure_witness :
  fetch_failed (PQexec_result Sample.rejecting 1 "SELECT * FROM public.mois")
  = true
  /\ main Sample.rejecting Sample.zeroed ["clientcomptage"; "-m"]
     = ([pqsignal_SIGINT;
         connectDatabase cparams "clientcomptage";
         PQexec 1 "SELECT * FROM public.mois";
         pg_log_error "query failed: ERROR:  syntax error";
         pg_log_info "query was: SELECT * FROM public.mois";
         PQclear (Some Sample.fatal_error);
         PQfinish (Some 1)], Exit 1%Z).
Proof.
  split; [reflexivity |].
  apply (report_query_failure Sample.rejecting Sample.zeroed
           "clientcomptage" "-m" "Mois" "SELECT * FROM public.mois" 1).
  - reflexivity.
  - reflexivity.
  - reflexivity.
Defined.

(** ** Interruption, continued *)

Lemma sigint_closes_once_witness :
  let p := main Sample.up Sample.zeroed ["clientcomptage"; "-j"] in
  sigint Sample.up 3 p
  = Some ([pqsignal_SIGINT;
           connectDatabase cparams "clientcomptage";
           PQexec 1 "SELECT * FROM public.jours_v";
           PQfinish (Some 1)], Exit EXIT_FAILURE)
  /\ PQfinish_count 1
       (trace ([pqsignal_SIGINT;
                connectDatabase cparams "clientcomptage";
                PQexec 1 "SELECT * FROM public.jours_v";
                PQfinish (Some 1)], @Exit Z EXIT_FAILURE)) = 1.
Proof.
  cbv zeta. split; [reflexivity |].
  apply (sigint_closes_once Sample.up 3
           (main Sample.up Sample.zeroed ["clientcomptage"; "-j"])
           ([pqsignal_SIGINT;
             connectDatabase cparams "clientcomptage";
             PQexec 1 "SELECT * FROM public.jours_v";
             PQfinish (Some 1)], Exit EXIT_FAILURE) 1).
  - reflexivity.
  - reflexivity.
  - reflexivity.
Defined.

(** ** Insertion, continued *)

Lemma insert_null_result_witness :
  let gone := mk_world false "14.2" (Some 1) (fun _ _ => None)
                       "server closed the connection unexpectedly" in
  PQexec_result gone 1 (insert_sql "now(), now()") = None
  /\ main gone Sample.zeroed ["clientcomptage"; "-a"; "now(), now()"]
     = ([pqsignal_SIGINT;
         connectDatabase cparams "clientcomptage";
         PQexec 1 "INSERT INTO public.comptage (deb,fin) VALUES (now(), now())";
         pg_log_error "query failed: server closed the connection unexpectedly";
         pg_log_info "query was: INSERT INTO public.comptage (deb,fin) VALUES (now(), now())";
         PQclear None; PQfinish (Some 1)], Exit 1%Z).
Proof.
  cbv zeta. split; [reflexivity |].
  apply (insert_null_result
           (mk_world false "14.2" (Some 1) (fun _ _ => None)
                     "server closed the connection unexpectedly")
           Sample.zeroed "clientcomptage" "now(), now()" 1).
  - reflexivity.
  - reflexivity.
Defined.

Lemma complaint_only_getopt_error (l : list Getopt.answer) (e : event) :
  In e (complaint l) -> e = getopt_error.
Proof.
  induction l as [| r l IH]; simpl; [contradiction |].
  destruct (action_answer r); [exact IH |].
  destruct (Getopt.complains r); simpl; [| contradiction].
  intros [H | []]. auto.
Qed.

(** The NULL test of [pg_strdup] is never hit by option parsing: [getopt]
    answers [a] only with an argument, so whatever the command line
    [get_opts] never logs the internal error of [pg_strdup]. *)
Theorem pg_strdup_null_unreachable (w : world) (g : options)
        (argv : list string) :
  ~ In (pg_log_error ("cannot duplicate null pointer (internal error)" ++ nl))
       (trace (get_opts w argv g)).
Proof.
  destruct argv as [| argv0 args]; [simpl; intros [] |].
  destruct (info_first (argv0 :: args)) eqn:Hinfo.
  { rewrite get_opts_info by assumption. simpl. intros [H | []].
    discriminate. }
  destruct (forallb action_answer (scanned w (argv0 :: args))) eqn:Hall.
  - destruct (get_opts_parsed w g argv0 args Hinfo Hall) as [o Ho].
    rewrite Ho. simpl. intros [].
  - rewrite get_opts_rejected by assumption. cbn [trace fst].
    intros Hin. apply in_app_or in Hin as [Hin | [Hin | []]].
    + apply complaint_only_getopt_error in Hin. discriminate.
    + unfold usage_hint in Hin. simpl in Hin. discriminate.
Qed.
